(** * Quiz practice app: the spaced-repetition scheduler and the Learn queue

    A shallow embedding of the scheduling core of [src/App.tsx]:
    [clamp], [shuffleArray], [scheduleNext], [updateDeck], [updateCard],
    [startLearn] and [gradeLearn], together with the properties the
    specification states about them.

    Conventions of the embedding.

    - A JavaScript [number] is taken as an exact rational ([Q]): there is
      no NaN, no infinity and no rounding error.  Decimal literals of the
      source ([1.3], [0.05], [1.15], ...) denote the rationals they spell.
      Numeric equality ([===] on numbers) is [Qeq], written [==].
    - The source reads two ambient sources, [Date.now()] and
      [Math.random()].  Both are oracles of the [World]; a function of the
      source that calls them lives in the state monad [Eff].
    - React state ([state], [learnSession]) is the record [App]; an event
      handler is a transition on it. *)

From stdpp Require Import gmap list strings.
From Stdlib Require Import QArith Qround Lia Lqa String.

Open Scope Q_scope.

(** * Part I: the program *)

(** ** Numbers and the [Math] object *)

Definition number := Q.
Bind Scope Q_scope with number.

(** [a === b] on numbers. *)
Definition strict_eq (a b : number) : bool := Qeq_bool a b.
Infix "===" := strict_eq (at level 70, no associativity) : Q_scope.

(** [x || d] on numbers: [0] is the only falsy rational. *)
Definition or_else (x d : number) : number := if x === 0 then d else x.

Module Math.
Definition max (a b : number) : number := if Qlt_le_dec a b then b else a.
Definition min (a b : number) : number := if Qlt_le_dec b a then b else a.
Definition floor (x : number) : number := inject_Z (Qfloor x).
(** [Math.round]: the nearest integer, a tie going towards +infinity. *)
Definition round (x : number) : number := inject_Z (Qfloor (x + 0.5)).
End Math.

(** [function clamp(n, a, b) { return Math.max(a, Math.min(b, n)); }] *)
Definition clamp (n a b : number) : number := Math.max a (Math.min b n).

(** ** The ambient clock and random source *)

Record World := {
  clock : nat -> number;        (* what the k-th call of Date.now() returns *)
  clock_reads : nat;            (* calls of Date.now() made so far *)
  entropy : nat -> number;      (* what the k-th call of Math.random() returns *)
  entropy_reads : nat           (* calls of Math.random() made so far *)
}.

Definition Eff (A : Type) : Type := World -> A * World.

Definition ret {A} (a : A) : Eff A := fun w => (a, w).
Definition bind {A B} (m : Eff A) (k : A -> Eff B) : Eff B :=
  fun w => let (a, w') := m w in k a w'.

Notation "'let!' x ':=' m 'in' k" := (bind m (fun x => k))
  (at level 10, x name, m at level 100, k at level 200).

Definition Date_now : Eff number := fun w =>
  (clock w (clock_reads w),
   {| clock := clock w; clock_reads := S (clock_reads w);
      entropy := entropy w; entropy_reads := entropy_reads w |}).

Definition Math_random : Eff number := fun w =>
  (entropy w (entropy_reads w),
   {| clock := clock w; clock_reads := clock_reads w;
      entropy := entropy w; entropy_reads := S (entropy_reads w) |}).

(** [function nowMs() { return Date.now(); }] *)
Definition nowMs : Eff number := Date_now.

(** The next [n] readings of the clock all return [now]. *)
Definition clock_steady (now : number) (n : nat) (w : World) : Prop :=
  forall i, (i < n)%nat -> clock w (clock_reads w + i) = now.

(** [w] after [n] further calls of [Date.now()]. *)
Definition after_reads (n : nat) (w : World) : World :=
  {| clock := clock w; clock_reads := (clock_reads w + n)%nat;
     entropy := entropy w; entropy_reads := entropy_reads w |}.

(** ** Cards *)

Module CardT.
Record t := mk {
  id : string;
  term : string;
  definition : string;
  due : number;
  ef : number;
  reps : number;
  interval : number;            (* days *)
  lapses : number;
  lastReviewed : option number  (* number | null *)
}.

(** Field assignments [c.f = v] on the scheduler's private copy. *)
Definition set_due (c : t) (v : number) : t :=
  mk (id c) (term c) (definition c) v (ef c) (reps c) (interval c) (lapses c) (lastReviewed c).
Definition set_ef (c : t) (v : number) : t :=
  mk (id c) (term c) (definition c) (due c) v (reps c) (interval c) (lapses c) (lastReviewed c).
Definition set_reps (c : t) (v : number) : t :=
  mk (id c) (term c) (definition c) (due c) (ef c) v (interval c) (lapses c) (lastReviewed c).
Definition set_interval (c : t) (v : number) : t :=
  mk (id c) (term c) (definition c) (due c) (ef c) (reps c) v (lapses c) (lastReviewed c).
Definition set_lapses (c : t) (v : number) : t :=
  mk (id c) (term c) (definition c) (due c) (ef c) (reps c) (interval c) v (lastReviewed c).
Definition set_lastReviewed (c : t) (v : option number) : t :=
  mk (id c) (term c) (definition c) (due c) (ef c) (reps c) (interval c) (lapses c) v.
End CardT.

(** ** The scheduler

    [grade] is declared [0 | 1 | 2 | 3] in the source; the declaration is
    erased at run time and the body only compares [grade] with [0], [1],
    [2] and [3], so the embedding takes any [number].  The guards
    [typeof c.ef === "number" ? c.ef : 2.3] (and those of [reps] and
    [interval]) select their first branch on every [CardT.t], whose
    fields are numbers. *)

Definition scheduleNext (card : CardT.t) (grade : number) : Eff CardT.t :=
  let c := card in                                   (* const c = { ...card } *)
  let ef := CardT.ef c in
  let reps := CardT.reps c in
  let interval := CardT.interval c in
  let newEf := ef in
  if grade === 0 then
    let c := CardT.set_reps c 0 in
    let c := CardT.set_interval c 0 in
    let! now := nowMs in
    let c := CardT.set_due c now in
    let c := CardT.set_lapses c (or_else (CardT.lapses c) 0 + 1) in
    let newEf := clamp (ef - 0.2) 1.3 3.0 in
    let c := CardT.set_ef c newEf in
    let! now' := nowMs in
    ret (CardT.set_lastReviewed c (Some now'))
  else
    let newReps := reps + 1 in
    let c := CardT.set_reps c newReps in
    let newEf := if grade === 1 then clamp (ef - 0.05) 1.3 3.0 else newEf in
    let newEf := if grade === 2 then clamp (ef + 0.02) 1.3 3.0 else newEf in
    let newEf := if grade === 3 then clamp (ef + 0.08) 1.3 3.0 else newEf in
    let newInterval :=
      if newReps === 1 then 1
      else if newReps === 2 then (if grade === 1 then 2 else 3)
      else
        let mult := if grade === 1 then 1.15 else if grade === 2 then 1.35 else 1.7 in
        Math.max 1 (Math.round (interval * newEf * mult)) in
    let c := CardT.set_interval c newInterval in
    let! now := nowMs in
    let c := CardT.set_due c (now + newInterval * 24 * 60 * 60 * 1000) in
    let c := CardT.set_ef c newEf in
    let! now' := nowMs in
    ret (CardT.set_lastReviewed c (Some now')).

(** The four values of the source's type [0 | 1 | 2 | 3]. *)
Inductive Grade := Again | Hard | Good | Easy.

Definition grade_number (g : Grade) : number :=
  match g with Again => 0 | Hard => 1 | Good => 2 | Easy => 3 end.
Coercion grade_number : Grade >-> number.

(** A world whose clock stands at [now]. *)
Definition steady_world (now : number) : World :=
  {| clock := fun _ => now; clock_reads := 0; entropy := fun _ => 0; entropy_reads := 0 |}.



(** ** Decks, application state and the Learn session *)

Module DeckT.
Record t := mk {
  id : string;
  name : string;
  description : string;
  cards : list CardT.t
}.
End DeckT.

Record AppState := {
  decks : list DeckT.t;
  selectedDeckId : option string   (* string | null *)
}.

Module LearnSession.
Record t := mk {
  startedAt : number;
  queue : list CardT.t;
  idx : nat;
  flipped : bool;
  graded : nat;
  total : nat
}.
End LearnSession.

(** The two pieces of React state the Learn mode works on:
    [const [state, setState]] and [const [learnSession, setLearnSession]]
    ([null] is [None]). *)
Record App := {
  state : AppState;
  learnSession : option LearnSession.t
}.

(** [Partial<CardT>]: a field is present or not. *)
Module Patch.
Record t := mk {
  id : option string;
  term : option string;
  definition : option string;
  due : option number;
  ef : option number;
  reps : option number;
  interval : option number;
  lapses : option number;
  lastReviewed : option (option number)
}.

(** A whole card passed where a patch is expected has every field. *)
Definition of_card (c : CardT.t) : t :=
  mk (Some (CardT.id c)) (Some (CardT.term c)) (Some (CardT.definition c))
     (Some (CardT.due c)) (Some (CardT.ef c)) (Some (CardT.reps c))
     (Some (CardT.interval c)) (Some (CardT.lapses c)) (Some (CardT.lastReviewed c)).
End Patch.

(** [{ ...c, ...patch }] *)
Definition spread (c : CardT.t) (patch : Patch.t) : CardT.t :=
  CardT.mk (default (CardT.id c) (Patch.id patch))
           (default (CardT.term c) (Patch.term patch))
           (default (CardT.definition c) (Patch.definition patch))
           (default (CardT.due c) (Patch.due patch))
           (default (CardT.ef c) (Patch.ef patch))
           (default (CardT.reps c) (Patch.reps patch))
           (default (CardT.interval c) (Patch.interval patch))
           (default (CardT.lapses c) (Patch.lapses patch))
           (default (CardT.lastReviewed c) (Patch.lastReviewed patch)).

(** [decks.find((x) => x.id === state.selectedDeckId) ?? decks[0] ?? null] *)
Definition selectedDeck (s : AppState) : option DeckT.t :=
  match List.find (fun x => match selectedDeckId s with
                            | Some sel => String.eqb (DeckT.id x) sel
                            | None => false
                            end) (decks s) with
  | Some d => Some d
  | None => head (decks s)
  end.

Definition updateDeck (deckId : string) (updater : DeckT.t -> DeckT.t) (s : AppState) : AppState :=
  {| decks := List.map (fun d => if String.eqb (DeckT.id d) deckId then updater d else d) (decks s);
     selectedDeckId := selectedDeckId s |}.

Definition updateCard (deckId cardId : string) (patch : Patch.t) (s : AppState) : AppState :=
  updateDeck deckId (fun d =>
    DeckT.mk (DeckT.id d) (DeckT.name d) (DeckT.description d)
      (List.map (fun c => if String.eqb (CardT.id c) cardId then spread c patch else c)
                (DeckT.cards d))) s.

(** ** The due selector

    The two filters of [startLearn].  [c.due ?? 0] is [c.due] on a card,
    whose [due] is a number. *)

Definition is_due (now : number) (c : CardT.t) : bool := Qle_bool (CardT.due c) now.
Definition is_not_due (now : number) (c : CardT.t) : bool := negb (Qle_bool (CardT.due c) now).

Definition partition (cards : list CardT.t) (now : number) : list CardT.t * list CardT.t :=
  (List.filter (is_due now) cards, List.filter (is_not_due now) cards).

(** ** Shuffling *)

(** A natural number as a [number], and a number used as an array index. *)
Definition of_nat (n : nat) : number := inject_Z (Z.of_nat n).
Definition to_index (x : number) : nat := Z.to_nat (Qfloor x).

(** [[a[i], a[j]] = [a[j], a[i]]] for [i] and [j] inside the array.  The
    loop of [shuffleArray] never leaves the array when [Math.random()]
    returns a value in [0, 1), see [random_index_bound]. *)
Definition swap {T} (a : list T) (i j : nat) : list T :=
  match a !! i, a !! j with
  | Some x, Some y => <[j:=x]> (<[i:=y]> a)
  | _, _ => a
  end.

(** [Math.floor(Math.random() * (i + 1))] *)
Definition random_index (i : nat) : Eff nat :=
  let! r := Math_random in
  ret (to_index (Math.floor (r * (of_nat i + 1)))).

(** The loop [for (let i = ...; i > 0; i--)], entered with [i]. *)
Fixpoint shuffle_loop {T} (i : nat) (a : list T) : Eff (list T) :=
  match i with
  | O => ret a
  | S i' =>
      let! j := random_index i in
      shuffle_loop i' (swap a i j)
  end.

Definition shuffleArray {T} (arr : list T) : Eff (list T) :=
  let a := arr in                                    (* const a = [...arr] *)
  shuffle_loop (List.length a - 1) a.

(** ** The Learn session *)

Definition startLearn (app : App) : Eff App :=
  match selectedDeck (state app) with
  | None => ret app
  | Some deck =>
      let! now := nowMs in
      let due := List.filter (is_due now) (DeckT.cards deck) in
      let notDue := List.filter (is_not_due now) (DeckT.cards deck) in
      let! sd := shuffleArray due in
      let! sn := shuffleArray notDue in
      let queue := take 50 (sd ++ sn) in
      ret {| state := state app;
             learnSession := Some (LearnSession.mk now queue 0 false 0 (List.length queue)) |}
  end.

Definition gradeLearn (grade : number) (app : App) : Eff App :=
  match selectedDeck (state app), learnSession app with
  | Some deck, Some ls =>
      match LearnSession.queue ls !! LearnSession.idx ls with
      | None => ret app
      | Some card =>
          let! updated := scheduleNext card grade in
          let st := updateCard (DeckT.id deck) (CardT.id card) (Patch.of_card updated) (state app) in
          ret {| state := st;
                 learnSession :=
                   Some (LearnSession.mk (LearnSession.startedAt ls) (LearnSession.queue ls)
                           (LearnSession.idx ls + 1) false
                           (LearnSession.graded ls + 1) (LearnSession.total ls)) |}
      end
  | _, _ => ret app
  end.

(** The "Reveal answer" button: [setLearnSession(ls => ls ? {...ls, flipped: true} : ls)]. *)
Definition reveal (app : App) : App :=
  {| state := state app;
     learnSession :=
       match learnSession app with
       | Some ls => Some (LearnSession.mk (LearnSession.startedAt ls) (LearnSession.queue ls)
                            (LearnSession.idx ls) true
                            (LearnSession.graded ls) (LearnSession.total ls))
       | None => None
       end |}.

Definition card_at (name : string) (due : number) : CardT.t :=
  CardT.mk name name name due 2.3 0 0 0 None.

Definition demo_deck : DeckT.t :=
  DeckT.mk "d1" "Sample Deck" ""
    [card_at "a" 10; card_at "b" 2000; card_at "c" 20; card_at "d" 3000; card_at "e" 30].

Definition demo_app : App :=
  {| state := {| decks := [demo_deck]; selectedDeckId := Some "d1"%string |}; learnSession := None |}.

Definition demo_world : World :=
  {| clock := fun _ => 1000; clock_reads := 0;
     entropy := fun k => if Nat.even k then 0.25 else 0.75; entropy_reads := 0 |}.

(** A session with a current card that has not been revealed. *)
Definition unflipped_app : App :=
  {| state := {| decks := [demo_deck]; selectedDeckId := Some "d1"%string |};
     learnSession := Some (LearnSession.mk 1000 [card_at "a" 10] 0 false 0 1) |}.

(** ** Contract of the random source *)

(** [Math.random()] honours its contract: every value is in [0, 1). *)
Definition random_ok (w : World) : Prop :=
  forall k, 0 <= entropy w k /\ entropy w k < 1.

(** ** Shuffling: the distribution of the result *)



Section ShuffleProb.
Context {T : Type} `{EqDecision T}.



End ShuffleProb.

(** Leibniz equality on numbers and on cards is decidable. *)
#[global] Instance Q_eq_dec : EqDecision Q.
Proof. solve_decision. Defined.

#[global] Instance CardT_eq_dec : EqDecision CardT.t.
Proof. solve_decision. Defined.


(** ** Objects

    The scheduler once more, on a heap of card objects: a card is a
    reference, [{ ...card }] allocates, [c.f = v] writes.  [run_heap]
    shows that it computes what [scheduleNext] computes. *)

Definition ref := nat.

Definition Obj (A : Type) : Type :=
  gmap ref CardT.t -> World -> option (A * gmap ref CardT.t * World).

Definition oret {A} (a : A) : Obj A := fun h w => Some (a, h, w).
Definition obind {A B} (m : Obj A) (k : A -> Obj B) : Obj B :=
  fun h w => match m h w with
             | Some (a, h', w') => k a h' w'
             | None => None
             end.

Notation "'let*' x ':=' m 'in' k" := (obind m (fun x => k))
  (at level 10, x name, m at level 100, k at level 200).
Notation "m ';;' k" := (obind m (fun _ => k))
  (at level 100, k at level 200, right associativity).

(** An effect on the world, run next to the heap. *)
Definition lift {A} (m : Eff A) : Obj A :=
  fun h w => let (a, w') := m w in Some (a, h, w').

(** [{ ...o }]: a new object with the fields of [o]. *)
Definition copy (o : ref) : Obj ref := fun h w =>
  match h !! o with
  | Some v => let c := fresh (dom h) in Some (c, <[c:=v]> h, w)
  | None => None
  end.

(** [o.f] *)
Definition get {A} (o : ref) (f : CardT.t -> A) : Obj A := fun h w =>
  match h !! o with
  | Some v => Some (f v, h, w)
  | None => None
  end.

(** [o.f = x] *)
Definition put (o : ref) (f : CardT.t -> number -> CardT.t) (x : number) : Obj unit := fun h w =>
  match h !! o with
  | Some v => Some (tt, <[o:=f v x]> h, w)
  | None => None
  end.

Definition put_lastReviewed (o : ref) (x : option number) : Obj unit := fun h w =>
  match h !! o with
  | Some v => Some (tt, <[o:=CardT.set_lastReviewed v x]> h, w)
  | None => None
  end.

Definition scheduleNext_heap (card : ref) (grade : number) : Obj ref :=
  let* c := copy card in
  let* ef := get c CardT.ef in
  let* reps := get c CardT.reps in
  let* interval := get c CardT.interval in
  let newEf := ef in
  if grade === 0 then
    put c CardT.set_reps 0 ;;
    put c CardT.set_interval 0 ;;
    let* now := lift nowMs in
    put c CardT.set_due now ;;
    let* lapses := get c CardT.lapses in
    put c CardT.set_lapses (or_else lapses 0 + 1) ;;
    let newEf := clamp (ef - 0.2) 1.3 3.0 in
    put c CardT.set_ef newEf ;;
    let* now' := lift nowMs in
    put_lastReviewed c (Some now') ;;
    oret c
  else
    let newReps := reps + 1 in
    put c CardT.set_reps newReps ;;
    let newEf := if grade === 1 then clamp (ef - 0.05) 1.3 3.0 else newEf in
    let newEf := if grade === 2 then clamp (ef + 0.02) 1.3 3.0 else newEf in
    let newEf := if grade === 3 then clamp (ef + 0.08) 1.3 3.0 else newEf in
    let newInterval :=
      if newReps === 1 then 1
      else if newReps === 2 then (if grade === 1 then 2 else 3)
      else
        let mult := if grade === 1 then 1.15 else if grade === 2 then 1.35 else 1.7 in
        Math.max 1 (Math.round (interval * newEf * mult)) in
    put c CardT.set_interval newInterval ;;
    let* now := lift nowMs in
    put c CardT.set_due (now + newInterval * 24 * 60 * 60 * 1000) ;;
    put c CardT.set_ef newEf ;;
    let* now' := lift nowMs in
    put_lastReviewed c (Some now') ;;
    oret c.

(** ** Traversals with effects *)

(** [arr.map(f)] for a callback that reads the clock or the random
    source: the calls are made in the order of the array. *)
Fixpoint mapM {A B} (f : A -> Eff B) (l : list A) : Eff (list B) :=
  match l with
  | [] => ret []
  | x :: l' =>
      let! y := f x in
      let! ys := mapM f l' in
      ret (y :: ys)
  end.

(** [arr.filter(f)] likewise. *)
Fixpoint filterM {A} (f : A -> Eff bool) (l : list A) : Eff (list A) :=
  match l with
  | [] => ret []
  | x :: l' =>
      let! keep := f x in
      let! xs := filterM f l' in
      ret (if keep then x :: xs else xs)
  end.

(** ** Identifiers and deck management *)

(** [s.slice(n)] *)
Definition slice_from (n : nat) (s : string) : string :=
  String.substring n (String.length s - n) s.

(** A new card as [addCard], [defaultData] and [resetProgress] write it:
    [{ id, term, definition, due, ef: 2.3, reps: 0, interval: 0,
       lapses: 0, lastReviewed: null }]. *)
Definition new_card (id term definition : string) (due : number) : CardT.t :=
  CardT.mk id term definition due 2.3 0 0 0 None.

Section Identifiers.

(** [x.toString(16)]: the rendering of a number in base 16, a built-in
    the development takes as given. *)
Variable toString16 : number -> string.

(** [Math.random().toString(16).slice(2) + Date.now().toString(16)] *)
Definition uid : Eff string :=
  let! r := Math_random in
  let! t := Date_now in
  ret (String.append (slice_from 2 (toString16 r)) (toString16 t)).

Definition defaultData : Eff AppState :=
  let! due1 := nowMs in
  let! due2 := nowMs in
  let! due3 := nowMs in
  let sampleCards :=
    [ ("NIST"%string,
       "A US standards body, often referenced for security frameworks."%string, due1);
      ("COBIT"%string,
       "A framework for governance and management of enterprise IT."%string, due2);
      ("ITGC"%string,
       "IT general controls that support reliable system operation."%string, due3) ] in
  let! deckId := uid in
  let! cards := mapM (fun c : string * string * number =>
                        let! cardId := uid in
                        ret (new_card cardId (fst (fst c)) (snd (fst c)) (snd c)))
                     sampleCards in
  let deck := DeckT.mk deckId "Sample Deck"
                "A few example cards. Create your own deck and start practicing." cards in
  ret {| decks := [deck]; selectedDeckId := Some (DeckT.id deck) |}.

(** [updateDeck] with an updater that reads the clock or the random
    source: it runs once for every deck that has the identifier. *)
Definition updateDeckE (deckId : string) (updater : DeckT.t -> Eff DeckT.t) (s : AppState)
  : Eff AppState :=
  let! ds := mapM (fun d => if String.eqb (DeckT.id d) deckId then updater d else ret d)
                  (decks s) in
  ret {| decks := ds; selectedDeckId := selectedDeckId s |}.

Definition addDeck (s : AppState) : Eff AppState :=
  let! id := uid in
  let deck := DeckT.mk id "New Deck" "" [] in
  ret {| decks := deck :: decks s; selectedDeckId := Some id |}.

Definition deleteDeck (deckId : string) (s : AppState) : Eff AppState :=
  let nextDecks := List.filter (fun d => negb (String.eqb (DeckT.id d) deckId)) (decks s) in
  match nextDecks with
  | [] => defaultData
  | first :: _ => ret {| decks := nextDecks; selectedDeckId := Some (DeckT.id first) |}
  end.

Definition addCard (deckId term definition : string) (s : AppState) : Eff AppState :=
  updateDeckE deckId (fun d =>
    let! id := uid in
    let! due := nowMs in
    ret (DeckT.mk (DeckT.id d) (DeckT.name d) (DeckT.description d)
           (new_card id term definition due :: DeckT.cards d))) s.

End Identifiers.

Definition deleteCard (deckId cardId : string) (s : AppState) : AppState :=
  updateDeck deckId (fun d =>
    DeckT.mk (DeckT.id d) (DeckT.name d) (DeckT.description d)
      (List.filter (fun c => negb (String.eqb (CardT.id c) cardId)) (DeckT.cards d))) s.

Definition resetProgress (deckId : string) (s : AppState) : Eff AppState :=
  updateDeckE deckId (fun d =>
    let! cards := mapM (fun c =>
                          let! due := nowMs in
                          ret (new_card (CardT.id c) (CardT.term c) (CardT.definition c) due))
                       (DeckT.cards d) in
    ret (DeckT.mk (DeckT.id d) (DeckT.name d) (DeckT.description d) cards)) s.

(** ** Deck statistics *)

Module Stats.
Record t := mk { total : nat; due : nat; mastered : nat }.
End Stats.

(** [(c.reps ?? 0) >= 5 && (c.interval ?? 0) >= 14] *)
Definition is_mastered (c : CardT.t) : bool :=
  Qle_bool 5 (CardT.reps c) && Qle_bool 14 (CardT.interval c).

(** The [stats] memo: the clock is read once for every card. *)
Definition stats (sel : option DeckT.t) : Eff Stats.t :=
  match sel with
  | None => ret (Stats.mk 0 0 0)
  | Some deck =>
      let total := List.length (DeckT.cards deck) in
      let! dueCards := filterM (fun c => let! now := nowMs in ret (Qle_bool (CardT.due c) now))
                               (DeckT.cards deck) in
      let mastered := List.length (List.filter is_mastered (DeckT.cards deck)) in
      ret (Stats.mk total (List.length dueCards) mastered)
  end.

(** ** The Learn session as a sequence of clicks *)

Definition resetLearn (app : App) : App :=
  {| state := state app; learnSession := None |}.

Inductive LearnOp := ClickReveal | ClickGrade (g : Grade).

Definition learn_step (op : LearnOp) (app : App) : Eff App :=
  match op with
  | ClickReveal => ret (reveal app)
  | ClickGrade g => gradeLearn g app
  end.

Fixpoint learn_run (ops : list LearnOp) (app : App) : Eff App :=
  match ops with
  | [] => ret app
  | op :: ops' => let! app' := learn_step op app in learn_run ops' app'
  end.

(** ** Flashcards *)

(** [a[x]] for a number [x]: defined at the whole numbers below the
    length. *)
Definition at_number {T} (a : list T) (x : number) : option T :=
  if Qeq_bool x (inject_Z (Qfloor x)) && Qle_bool 0 x
  then a !! Z.to_nat (Qfloor x) else None.

(** [fcCards[clamp(fcIndex, 0, Math.max(0, fcCards.length - 1))]] *)
Definition currentFc {T} (fcCards : list T) (fcIndex : number) : option T :=
  at_number fcCards (clamp fcIndex 0 (Math.max 0 (of_nat (List.length fcCards) - 1))).

(** The updaters of the Prev and Next buttons:
    [i => Math.max(0, i - 1)] and [i => Math.min(fcCards.length - 1, i + 1)]. *)
Definition fcPrev (i : number) : number := Math.max 0 (i - 1).
Definition fcNext {T} (fcCards : list T) (i : number) : number :=
  Math.min (of_nat (List.length fcCards) - 1) (i + 1).

(** ** Tests *)

Inductive Direction := term_to_definition | definition_to_term.

Module TestConfig.
Record t := mk { count : number; direction : Direction; includeNotDue : bool }.
End TestConfig.

Module TestQuestion.
Record t := mk {
  id : string;
  cardId : string;
  prompt : string;
  correct : string;
  options : list string;
  picked : option string;       (* string | null *)
  isCorrect : option bool       (* boolean | null *)
}.
End TestQuestion.

Module TestSession.
Record t := mk {
  idx : Z;
  questions : list TestQuestion.t;
  startedAt : number;
  finished : bool
}.
End TestSession.

(** [a[i]] for a whole number [i]. *)
Definition at_Z {T} (a : list T) (i : Z) : option T :=
  if (i <? 0)%Z then None else a !! Z.to_nat i.

(** [pickN]: the identifier of an element is read by [id]. *)
Definition pickN {T} (id : T -> string) (arr : list T) (n : nat) (excludeIds : gset string)
  : Eff (list T) :=
  let pool := List.filter (fun x => negb (bool_decide (id x ∈ excludeIds))) arr in
  let! shuffled := shuffleArray pool in
  ret (take n shuffled).

Section Tests.
Variable toString16 : number -> string.

Definition buildTest (selected : option DeckT.t) (testConfig : TestConfig.t)
    (testSession : option TestSession.t) : Eff (option TestSession.t) :=
  match selected with
  | None => ret testSession
  | Some deck =>
      let! now := nowMs in
      let pool := if TestConfig.includeNotDue testConfig
                  then DeckT.cards deck
                  else List.filter (is_due now) (DeckT.cards deck) in
      let count := clamp (or_else (TestConfig.count testConfig) 10) 1 50 in
      let! shuffled := shuffleArray pool in
      let base := take (to_index (Math.min count (of_nat (List.length pool)))) shuffled in
      let allCards := DeckT.cards deck in
      let side (c : CardT.t) :=
        match TestConfig.direction testConfig with
        | term_to_definition => CardT.definition c
        | definition_to_term => CardT.term c
        end in
      let! questions := mapM (fun c =>
          let correct := side c in
          let prompt := match TestConfig.direction testConfig with
                        | term_to_definition => CardT.term c
                        | definition_to_term => CardT.definition c
                        end in
          let! distractFrom := pickN CardT.id allCards 3 {[ CardT.id c ]} in
          let distractors := List.map side distractFrom in
          let! options := shuffleArray (correct :: distractors) in
          let! id := uid toString16 in
          ret (TestQuestion.mk id (CardT.id c) prompt correct options None None)) base in
      let! startedAt := nowMs in
      ret (Some (TestSession.mk 0 questions startedAt false))
  end.

End Tests.

Definition pickOption (opt : string) (ts : option TestSession.t) : option TestSession.t :=
  match ts with
  | None => None
  | Some t =>
      match at_Z (TestSession.questions t) (TestSession.idx t) with
      | None => ts
      | Some q =>
          match TestQuestion.picked q with
          | Some _ => ts
          | None =>
              let isCorrect := String.eqb opt (TestQuestion.correct q) in
              let nextQuestions :=
                imap (fun i qq =>
                        if (Z.of_nat i =? TestSession.idx t)%Z
                        then TestQuestion.mk (TestQuestion.id qq) (TestQuestion.cardId qq)
                               (TestQuestion.prompt qq) (TestQuestion.correct qq)
                               (TestQuestion.options qq) (Some opt) (Some isCorrect)
                        else qq)
                     (TestSession.questions t) in
              Some (TestSession.mk (TestSession.idx t) nextQuestions
                      (TestSession.startedAt t) (TestSession.finished t))
          end
      end
  end.

Definition nextQuestion (ts : option TestSession.t) : option TestSession.t :=
  match ts with
  | None => None
  | Some t =>
      let nextIdx := (TestSession.idx t + 1)%Z in
      let finished := (Z.of_nat (List.length (TestSession.questions t)) <=? nextIdx)%Z in
      Some (TestSession.mk (if finished then TestSession.idx t else nextIdx)
              (TestSession.questions t) (TestSession.startedAt t) finished)
  end.

Definition prevQuestion (ts : option TestSession.t) : option TestSession.t :=
  match ts with
  | None => None
  | Some t =>
      Some (TestSession.mk (Z.max 0 (TestSession.idx t - 1))
              (TestSession.questions t) (TestSession.startedAt t) (TestSession.finished t))
  end.

Definition endTest (ts : option TestSession.t) : option TestSession.t := None.

(** The [testScore] memo, as the pair [(correct, total)]. *)
Definition testScore (ts : option TestSession.t) : nat * nat :=
  match ts with
  | None => (0%nat, 0%nat)
  | Some t =>
      let total := List.length (TestSession.questions t) in
      let correct :=
        List.length (List.filter (fun q => match TestQuestion.isCorrect q with
                                           | Some true => true
                                           | _ => false
                                           end) (TestSession.questions t)) in
      (correct, total)
  end.

(** The clicks of a running test. *)
Inductive TestOp := Pick (opt : string) | Next | Prev.

Definition test_step (op : TestOp) (ts : option TestSession.t) : option TestSession.t :=
  match op with
  | Pick opt => pickOption opt ts
  | Next => nextQuestion ts
  | Prev => prevQuestion ts
  end.

Definition test_run (ops : list TestOp) (ts : option TestSession.t) : option TestSession.t :=
  fold_left (fun s op => test_step op s) ops ts.

(** A rendering of numbers for the examples. *)
Definition demo_hex (x : number) : string :=
  if Qle_bool 1 x then "18b" else "0.8".

(** ** Worlds and computations, for the statements *)

(** A computation only advances the two counters of the world. *)
Definition keeps_oracles {A} (m : Eff A) : Prop :=
  forall w, clock (snd (m w)) = clock w /\ entropy (snd (m w)) = entropy w.

(** The clock stands at [now] for good. *)
Definition clock_frozen (now : number) (w : World) : Prop :=
  forall k, clock w k = now.

(** ** Deck management as a sequence of actions *)

Inductive StateOp :=
| AddDeck
| DeleteDeck (deckId : string)
| AddCard (deckId term definition : string)
| UpdateCard (deckId cardId : string) (patch : Patch.t)
| DeleteCard (deckId cardId : string)
| ResetProgress (deckId : string).

Definition state_step (toString16 : number -> string) (op : StateOp) (s : AppState)
  : Eff AppState :=
  match op with
  | AddDeck => addDeck toString16 s
  | DeleteDeck deckId => deleteDeck toString16 deckId s
  | AddCard deckId term definition => addCard toString16 deckId term definition s
  | UpdateCard deckId cardId patch => ret (updateCard deckId cardId patch s)
  | DeleteCard deckId cardId => ret (deleteCard deckId cardId s)
  | ResetProgress deckId => resetProgress deckId s
  end.

Fixpoint state_run (toString16 : number -> string) (ops : list StateOp) (s : AppState)
  : Eff AppState :=
  match ops with
  | [] => ret s
  | op :: ops' => let! s' := state_step toString16 op s in state_run toString16 ops' s'
  end.

(** The number of grade clicks among the clicks. *)
Definition grade_clicks (ops : list LearnOp) : nat :=
  List.length (List.filter (fun op => match op with ClickGrade _ => true | _ => false end) ops).

(** The identifiers of the cards, deck by deck. *)
Definition card_ids (s : AppState) : list (string * list string) :=
  List.map (fun d => (DeckT.id d, List.map CardT.id (DeckT.cards d))) (decks s).

(** ** Questions of a test, for the statements *)

(** [{ ...q, picked: opt, isCorrect }] with [isCorrect = opt === q.correct]. *)
Definition answered_with (opt : string) (q : TestQuestion.t) : TestQuestion.t :=
  TestQuestion.mk (TestQuestion.id q) (TestQuestion.cardId q) (TestQuestion.prompt q)
    (TestQuestion.correct q) (TestQuestion.options q) (Some opt)
    (Some (String.eqb opt (TestQuestion.correct q))).

(** Two questions that differ at most in the answer given. *)
Definition same_question (q q' : TestQuestion.t) : Prop :=
  TestQuestion.id q' = TestQuestion.id q /\
  TestQuestion.cardId q' = TestQuestion.cardId q /\
  TestQuestion.prompt q' = TestQuestion.prompt q /\
  TestQuestion.correct q' = TestQuestion.correct q /\
  TestQuestion.options q' = TestQuestion.options q.

(** A question is unanswered, or it records an answer and whether that
    answer is the correct one. *)
Definition answer_ok (q : TestQuestion.t) : Prop :=
  match TestQuestion.picked q, TestQuestion.isCorrect q with
  | None, None => True
  | Some p, Some b => b = String.eqb p (TestQuestion.correct q)
  | _, _ => False
  end.

(** The position of a session is inside its questions (at [0] when
    there are none). *)
Definition idx_in_range (t : TestSession.t) : Prop :=
  (0 <= TestSession.idx t < Z.max 1 (Z.of_nat (List.length (TestSession.questions t))))%Z.

(** The sample session of the examples: two questions, none answered. *)
Definition demo_question (id correct : string) : TestQuestion.t :=
  TestQuestion.mk id id "?" correct [correct; "x"] None None.
Definition demo_test : TestSession.t :=
  TestSession.mk 0 [demo_question "q1" "a"; demo_question "q2" "b"] 0 false.

(** From one moment of a test to a later one: the question is the same
    and an answer once given stays. *)
Definition question_step (q q' : TestQuestion.t) : Prop :=
  same_question q q' /\ (TestQuestion.picked q <> None -> q' = q).

(** [q.isCorrect === true] *)
Definition is_correct (q : TestQuestion.t) : bool :=
  match TestQuestion.isCorrect q with
  | Some true => true
  | _ => false
  end.

(** The two sides of a card under a direction: what a question shows and
    what it asks for. *)
Definition prompt_of (d : Direction) (c : CardT.t) : string :=
  match d with term_to_definition => CardT.term c | definition_to_term => CardT.definition c end.
Definition answer_of (d : Direction) (c : CardT.t) : string :=
  match d with term_to_definition => CardT.definition c | definition_to_term => CardT.term c end.

(** The cards of a list under another identifier than [cardId]. *)
Definition others (cardId : string) (cards : list CardT.t) : list CardT.t :=
  List.filter (fun d => negb (String.eqb (CardT.id d) cardId)) cards.

(** * Part II: properties *)

(** ** Arithmetic of [Math] and [clamp] *)

Lemma max_ge_l a b : a <= Math.max a b.
Proof. unfold Math.max. destruct (Qlt_le_dec a b); lra. Qed.

Lemma max_ge_r a b : b <= Math.max a b.
Proof. unfold Math.max. destruct (Qlt_le_dec a b); lra. Qed.

Lemma max_lub a b c : a <= c -> b <= c -> Math.max a b <= c.
Proof. unfold Math.max. destruct (Qlt_le_dec a b); lra. Qed.

Lemma max_mono a b b' : b <= b' -> Math.max a b <= Math.max a b'.
Proof. intros H. apply max_lub; [apply max_ge_l|]. pose proof (max_ge_r a b'). lra. Qed.

Lemma min_le_l a b : Math.min a b <= a.
Proof. unfold Math.min. destruct (Qlt_le_dec b a); lra. Qed.

Lemma min_le_r a b : Math.min a b <= b.
Proof. unfold Math.min. destruct (Qlt_le_dec b a); lra. Qed.

Lemma min_glb a b c : c <= a -> c <= b -> c <= Math.min a b.
Proof. unfold Math.min. destruct (Qlt_le_dec b a); lra. Qed.



Lemma clamp_range n a b : a <= b -> a <= clamp n a b /\ clamp n a b <= b.
Proof.
  intros Hab. unfold clamp. split; [apply max_ge_l|].
  apply max_lub; [assumption | apply min_le_l].
Qed.

Lemma clamp_mono n m a b : n <= m -> clamp n a b <= clamp m a b.
Proof.
  intros H. unfold clamp. apply max_mono. apply min_glb; [apply min_le_l|].
  pose proof (min_le_r b n). lra.
Qed.


Lemma round_mono x y : x <= y -> Math.round x <= Math.round y.
Proof.
  intros H. unfold Math.round. rewrite <- Zle_Qle. apply Qfloor_resp_le. lra.
Qed.

Lemma round_neg x : x < 0 -> Math.round x <= 0.
Proof.
  intros H. unfold Math.round.
  pose proof (Qfloor_le (x + 0.5)) as Hf.
  destruct (Z_le_gt_dec (Qfloor (x + 0.5)) 0) as [Hz|Hz].
  - rewrite Zle_Qle in Hz. exact Hz.
  - assert (H1 : (1 <= Qfloor (x + 0.5))%Z) by lia.
    rewrite Zle_Qle in H1. change (inject_Z 1) with 1 in H1. lra.
Qed.

(** ** Running the scheduler *)

(** The scheduler reads the clock exactly twice and nothing else. *)
Lemma scheduleNext_world c g w : snd (scheduleNext c g w) = after_reads 2 w.
Proof.
  unfold scheduleNext, bind, nowMs, Date_now, ret, after_reads.
  destruct (g === 0); cbn; repeat f_equal; lia.
Qed.

Lemma clock_steady_0 now n w : clock_steady now (S n) w -> clock w (clock_reads w) = now.
Proof. intros H. rewrite <- (H 0%nat) by lia. f_equal. lia. Qed.


Lemma steady_world_steady now n : clock_steady now n (steady_world now).
Proof. intros i _. reflexivity. Qed.

(** The card the scheduler returns, as a function of the card, the grade
    and the two readings of the clock. *)
Lemma scheduleNext_card c g w :
  let t1 := clock w (clock_reads w) in
  let t2 := clock w (S (clock_reads w)) in
  fst (scheduleNext c g w) =
  if g === 0 then
    CardT.mk (CardT.id c) (CardT.term c) (CardT.definition c)
      t1 (clamp (CardT.ef c - 0.2) 1.3 3.0) 0 0
      (or_else (CardT.lapses c) 0 + 1) (Some t2)
  else
    let newReps := CardT.reps c + 1 in
    let newEf := CardT.ef c in
    let newEf := if g === 1 then clamp (CardT.ef c - 0.05) 1.3 3.0 else newEf in
    let newEf := if g === 2 then clamp (CardT.ef c + 0.02) 1.3 3.0 else newEf in
    let newEf := if g === 3 then clamp (CardT.ef c + 0.08) 1.3 3.0 else newEf in
    let newInterval :=
      if newReps === 1 then 1
      else if newReps === 2 then (if g === 1 then 2 else 3)
      else Math.max 1 (Math.round (CardT.interval c * newEf *
             (if g === 1 then 1.15 else if g === 2 then 1.35 else 1.7))) in
    CardT.mk (CardT.id c) (CardT.term c) (CardT.definition c)
      (t1 + newInterval * 24 * 60 * 60 * 1000) newEf newReps newInterval
      (CardT.lapses c) (Some t2).
Proof.
  unfold scheduleNext, bind, nowMs, Date_now, ret.
  destruct (g === 0); reflexivity.
Qed.

Lemma strict_eq_true a b : a == b -> (a === b) = true.
Proof. apply Qeq_bool_iff. Qed.

Lemma strict_eq_false a b : ~ a == b -> (a === b) = false.
Proof.
  intros H. destruct (a === b) eqn:E; [|reflexivity].
  apply Qeq_bool_iff in E. contradiction.
Qed.


(** The three scheduling scenarios of the specification, at
    [T = 1700000000000]. *)
Example scenario_A :
  let c' := fst (scheduleNext (CardT.mk "c" "t" "d" 0 2.3 0 0 0 None) Good
                   (steady_world 1700000000000)) in
  CardT.reps c' == 1 /\ CardT.interval c' == 1 /\ CardT.ef c' == 2.32 /\
  CardT.due c' == 1700000000000 + 86400000 /\
  CardT.lastReviewed c' = Some 1700000000000.
Proof. vm_compute. repeat split. Qed.

Example scenario_B :
  let c' := fst (scheduleNext (CardT.mk "c" "t" "d" 0 2.3 2 3 0 None) Hard
                   (steady_world 1700000000000)) in
  CardT.reps c' == 3 /\ CardT.ef c' == 2.25 /\ CardT.interval c' == 8 /\
  Math.round (3 * 2.25 * 1.15) == 8 /\
  CardT.due c' == 1700000000000 + 8 * 86400000.
Proof. vm_compute. repeat split. Qed.

Example scenario_C :
  let c' := fst (scheduleNext (CardT.mk "c" "t" "d" 0 2.5 5 20 1 None) Again
                   (steady_world 1700000000000)) in
  CardT.reps c' == 0 /\ CardT.interval c' == 0 /\ CardT.ef c' == 2.3 /\
  CardT.lapses c' == 2 /\ CardT.due c' == 1700000000000.
Proof. vm_compute. repeat split. Qed.

(** Decides the tests [grade === 0], [grade === 1], ... once the grade
    is known. *)
Ltac literal_tests :=
  cbn [grade_number];
  repeat match goal with
         | |- context [Qmake ?n 1 === Qmake ?m 1] =>
             let b := eval vm_compute in (Qmake n 1 === Qmake m 1) in
             change (Qmake n 1 === Qmake m 1) with b
         end;
  cbv beta iota zeta.

(** ** The scheduler on Hard, Good and Easy *)



(** ** The scheduler on Again *)




(** ** The invariant of the data model *)

(** C3.  For every card and every grade the returned card has its [ef] in
    [1.3, 3.0], has interval 0 only with [reps] 0, and after Hard, Good or
    Easy has an interval of at least 1. *)
Theorem scheduleNext_invariant (c : CardT.t) (g : Grade) (w : World) :
  let c' := fst (scheduleNext c g w) in
  (1.3 <= CardT.ef c' /\ CardT.ef c' <= 3.0) /\
  (CardT.interval c' == 0 -> CardT.reps c' == 0) /\
  (g <> Again -> 1 <= CardT.interval c').
Proof.
  intros c'. subst c'. rewrite scheduleNext_card. cbv zeta.
  assert (Hpos : forall r v x, 1 <= v ->
    1 <= (if r === 1 then 1 else if r === 2 then v else Math.max 1 x)).
  { intros r v x Hv. destruct (r === 1); [lra|].
    destruct (r === 2); [exact Hv | apply max_ge_l]. }
  destruct g; literal_tests; cbn [CardT.reps CardT.ef CardT.interval];
    (split; [apply clamp_range; lra|]).
  - split; [reflexivity | congruence].
  - pose proof (Hpos (CardT.reps c + 1) 2
      (Math.round (CardT.interval c * clamp (CardT.ef c - 0.05) 1.3 3.0 * 1.15)) ltac:(lra)).
    split; [intros; lra | intros; assumption].
  - pose proof (Hpos (CardT.reps c + 1) 3
      (Math.round (CardT.interval c * clamp (CardT.ef c + 0.02) 1.3 3.0 * 1.35)) ltac:(lra)).
    split; [intros; lra | intros; assumption].
  - pose proof (Hpos (CardT.reps c + 1) 3
      (Math.round (CardT.interval c * clamp (CardT.ef c + 0.08) 1.3 3.0 * 1.7)) ltac:(lra)).
    split; [intros; lra | intros; assumption].
Qed.

(** ** Easy against Hard *)

Lemma max1_round_nonpos x : x < 0 -> Math.max 1 (Math.round x) == 1.
Proof.
  intros H. pose proof (round_neg x H). unfold Math.max.
  destruct (Qlt_le_dec 1 (Math.round x)); lra.
Qed.

(** C9.  When the new [reps] is at least 3, Easy gives an interval at
    least as long as Hard does from the same card. *)
Theorem easy_interval_ge_hard (c : CardT.t) (w : World) :
  3 <= CardT.reps c + 1 ->
  CardT.interval (fst (scheduleNext c Hard w)) <=
  CardT.interval (fst (scheduleNext c Easy w)).
Proof.
  intros H3. rewrite !scheduleNext_card. literal_tests. cbn [CardT.interval].
  rewrite !strict_eq_false by lra.
  set (efH := clamp (CardT.ef c - 0.05) 1.3 3.0).
  set (efE := clamp (CardT.ef c + 0.08) 1.3 3.0).
  assert (HH : 1.3 <= efH /\ efH <= 3.0) by (apply clamp_range; lra).
  assert (HE : 1.3 <= efE /\ efE <= 3.0) by (apply clamp_range; lra).
  assert (Hm : efH <= efE) by (apply clamp_mono; lra).
  destruct (Qlt_le_dec (CardT.interval c) 0) as [Hneg|Hpos].
  - rewrite (max1_round_nonpos (CardT.interval c * efH * 1.15)) by nra.
    apply max_ge_l.
  - apply max_mono, round_mono. nra.
Qed.

Lemma easy_interval_ge_hard_witness :
  CardT.interval (fst (scheduleNext (CardT.mk "c" "t" "d" 0 2.3 2 3 0 None) Hard (steady_world 1000))) <=
  CardT.interval (fst (scheduleNext (CardT.mk "c" "t" "d" 0 2.3 2 3 0 None) Easy (steady_world 1000))).
Proof.
  apply (easy_interval_ge_hard (CardT.mk "c" "t" "d" 0 2.3 2 3 0 None) (steady_world 1000)).
  vm_compute. discriminate.
Defined.

(** ** The clock is ambient *)

(** C7 as stated fails: [scheduleNext] has no [now] parameter.  The same
    card and the same grade give different cards when the clock differs. *)
Lemma scheduleNext_depends_on_clock :
  let c := CardT.mk "c1" "NIST" "A US standards body" 0 2.3 0 0 0 None in
  fst (scheduleNext c Good (steady_world 1000)) <>
  fst (scheduleNext c Good (steady_world 2000)).
Proof. vm_compute. discriminate. Qed.

(** C7, as the code has it.  The returned card is determined by the card,
    the grade and the two values the call reads from [Date.now()]: two
    calls with the same card and grade that read the same two values
    return the same card, whatever else the worlds differ in.  The call
    changes nothing in the world but the count of clock readings. *)
Theorem scheduleNext_deterministic (c : CardT.t) (g : number) (w1 w2 : World) :
  clock w1 (clock_reads w1) = clock w2 (clock_reads w2) ->
  clock w1 (S (clock_reads w1)) = clock w2 (S (clock_reads w2)) ->
  fst (scheduleNext c g w1) = fst (scheduleNext c g w2) /\
  snd (scheduleNext c g w1) = after_reads 2 w1 /\
  snd (scheduleNext c g w2) = after_reads 2 w2.
Proof.
  intros H1 H2. rewrite !scheduleNext_card, !scheduleNext_world. cbv zeta.
  rewrite H1, H2. auto.
Qed.

Lemma scheduleNext_deterministic_witness :
  let c := CardT.mk "c1" "NIST" "A US standards body" 0 2.3 0 0 0 None in
  let w2 := {| clock := fun k => if (k <? 5)%nat then 1000 else 7;
               clock_reads := 3; entropy := fun _ => 0.5; entropy_reads := 9 |} in
  fst (scheduleNext c Good (steady_world 1000)) = fst (scheduleNext c Good w2).
Proof.
  intros c w2.
  apply (scheduleNext_deterministic c Good (steady_world 1000) w2); reflexivity.
Defined.

(** ** Grades outside the type *)




(** ** The due selector: properties *)

Lemma is_due_iff now c : is_due now c = true <-> CardT.due c <= now.
Proof. apply Qle_bool_iff. Qed.

Lemma is_not_due_iff now c : is_not_due now c = true <-> ~ CardT.due c <= now.
Proof.
  unfold is_not_due. rewrite negb_true_iff, <- not_true_iff_false.
  apply not_iff_compat, Qle_bool_iff.
Qed.

Lemma filter_sublist {A} (f : A -> bool) (l : list A) : sublist (List.filter f l) l.
Proof.
  induction l as [|x l IH]; cbn; [constructor|].
  destruct (f x); [apply sublist_skip | apply sublist_cons]; exact IH.
Qed.

Lemma filter_split_perm {A} (f g : A -> bool) (l : list A) :
  (forall x, g x = negb (f x)) ->
  Permutation (List.filter f l ++ List.filter g l) l.
Proof.
  intros Hg. induction l as [|x l IH]; cbn; [constructor|].
  rewrite Hg. destruct (f x); cbn.
  - constructor. exact IH.
  - rewrite <- Permutation_middle. constructor. exact IH.
Qed.

Lemma elem_of_due now cards c :
  c ∈ List.filter (is_due now) cards <-> c ∈ cards /\ CardT.due c <= now.
Proof. rewrite !list_elem_of_In, filter_In, is_due_iff. tauto. Qed.

Lemma elem_of_not_due now cards c :
  c ∈ List.filter (is_not_due now) cards <-> c ∈ cards /\ ~ CardT.due c <= now.
Proof. rewrite !list_elem_of_In, filter_In, is_not_due_iff. tauto. Qed.

(** C6.  A card is in the due part exactly when it is a card of the
    collection with [due <= now], and in the other part exactly when it
    is one with [due > now]; each part keeps the order of the collection;
    and the two parts together hold every card of the collection exactly
    as often as the collection does. *)
Theorem partition_due (cards : list CardT.t) (now : number) :
  let due := fst (partition cards now) in
  let notDue := snd (partition cards now) in
  (forall c, c ∈ due <-> c ∈ cards /\ CardT.due c <= now) /\
  (forall c, c ∈ notDue <-> c ∈ cards /\ ~ CardT.due c <= now) /\
  sublist due cards /\ sublist notDue cards /\
  Permutation (due ++ notDue) cards.
Proof.
  cbn.
  split; [intros c; apply elem_of_due|].
  split; [intros c; apply elem_of_not_due|].
  split; [apply filter_sublist|]. split; [apply filter_sublist|].
  apply filter_split_perm. reflexivity.
Qed.

Lemma spread_of_card c u : spread c (Patch.of_card u) = u.
Proof. destruct u. reflexivity. Qed.

(** ** Grading in the Learn session *)

(** C4 as stated fails: [gradeLearn] does not look at [flipped].  With the
    current card not revealed it still grades: the card is rescheduled in
    the deck, the position and the graded count go from 0 to 1. *)
Lemma gradeLearn_ignores_flipped :
  let app' := fst (gradeLearn Good unflipped_app (steady_world 1000)) in
  LearnSession.flipped <$> learnSession unflipped_app = Some false /\
  app' <> unflipped_app /\
  LearnSession.idx <$> learnSession app' = Some 1%nat /\
  LearnSession.graded <$> learnSession app' = Some 1%nat /\
  (CardT.reps <$> (DeckT.cards demo_deck !! 0%nat)) = Some 0 /\
  (d ← decks (state app') !! 0%nat; CardT.reps <$> (DeckT.cards d !! 0%nat)) = Some (0 + 1).
Proof.
  cbv zeta. split; [reflexivity|]. split; [|repeat split; reflexivity].
  intros H. apply (f_equal (fun a => LearnSession.idx <$> learnSession a)) in H.
  vm_compute in H. discriminate.
Qed.

(** C4, as the code has it.  [gradeLearn] changes the state exactly when a
    deck is selected, a session exists and the queue has a card at the
    current position; the flip state is not consulted.  When it applies
    it runs the scheduler on that card, replaces by the result every card
    of the selected deck that has the card's identifier, adds 1 to the
    position and to the graded count, sets [flipped] to false and leaves
    the queue as it was.  Otherwise it changes nothing and does not read
    the clock.  When it applies, revealing the card first makes no
    difference to what grading returns. *)
Theorem gradeLearn_transition (g : number) (app : App) (w : World) :
  let current deck ls card :=
    selectedDeck (state app) = Some deck /\ learnSession app = Some ls /\
    LearnSession.queue ls !! LearnSession.idx ls = Some card in
  (fst (gradeLearn g app w) <> app <-> exists deck ls card, current deck ls card) /\
  (forall deck ls card, current deck ls card ->
     let updated := fst (scheduleNext card g w) in
     gradeLearn g app w =
     ({| state :=
           {| decks :=
                List.map (fun d =>
                  if String.eqb (DeckT.id d) (DeckT.id deck)
                  then DeckT.mk (DeckT.id d) (DeckT.name d) (DeckT.description d)
                         (List.map (fun c => if String.eqb (CardT.id c) (CardT.id card)
                                             then updated else c) (DeckT.cards d))
                  else d) (decks (state app));
              selectedDeckId := selectedDeckId (state app) |};
         learnSession :=
           Some (LearnSession.mk (LearnSession.startedAt ls) (LearnSession.queue ls)
                   (LearnSession.idx ls + 1) false
                   (LearnSession.graded ls + 1) (LearnSession.total ls)) |},
      snd (scheduleNext card g w))) /\
  ((~ exists deck ls card, current deck ls card) -> gradeLearn g app w = (app, w)) /\
  (forall deck ls card, current deck ls card ->
     gradeLearn g (reveal app) w = gradeLearn g app w).
Proof.
  cbv zeta.
  assert (Hrun : forall deck ls card,
    selectedDeck (state app) = Some deck -> learnSession app = Some ls ->
    LearnSession.queue ls !! LearnSession.idx ls = Some card ->
    gradeLearn g app w =
     ({| state :=
           {| decks :=
                List.map (fun d =>
                  if String.eqb (DeckT.id d) (DeckT.id deck)
                  then DeckT.mk (DeckT.id d) (DeckT.name d) (DeckT.description d)
                         (List.map (fun c => if String.eqb (CardT.id c) (CardT.id card)
                                             then fst (scheduleNext card g w) else c)
                                   (DeckT.cards d))
                  else d) (decks (state app));
              selectedDeckId := selectedDeckId (state app) |};
         learnSession :=
           Some (LearnSession.mk (LearnSession.startedAt ls) (LearnSession.queue ls)
                   (LearnSession.idx ls + 1) false
                   (LearnSession.graded ls + 1) (LearnSession.total ls)) |},
      snd (scheduleNext card g w))).
  { intros deck ls card Hd Hs Hc. unfold gradeLearn. rewrite Hd, Hs, Hc.
    unfold bind, ret. destruct (scheduleNext card g w) as [updated w'] eqn:E. cbn [fst snd].
    unfold updateCard, updateDeck. do 3 f_equal.
    apply map_ext. intros d. destruct (String.eqb (DeckT.id d) (DeckT.id deck)); [|reflexivity].
    f_equal. apply map_ext. intros c. rewrite spread_of_card. reflexivity. }
  assert (Hskip : (~ exists deck ls card,
    selectedDeck (state app) = Some deck /\ learnSession app = Some ls /\
    LearnSession.queue ls !! LearnSession.idx ls = Some card) ->
    gradeLearn g app w = (app, w)).
  { intros Hno. unfold gradeLearn.
    destruct (selectedDeck (state app)) as [deck|]; [|reflexivity].
    destruct (learnSession app) as [ls|]; [|reflexivity].
    destruct (LearnSession.queue ls !! LearnSession.idx ls) as [card|] eqn:Hc; [|reflexivity].
    exfalso. apply Hno. exists deck, ls, card. auto. }
  split; [|split; [|split]].
  - split.
    + intros Hne.
      destruct (selectedDeck (state app)) as [deck|] eqn:Hd;
        [|exfalso; apply Hne; rewrite Hskip; [reflexivity | intros (?&?&?&?&?); congruence]].
      destruct (learnSession app) as [ls|] eqn:Hs;
        [|exfalso; apply Hne; rewrite Hskip; [reflexivity | intros (?&?&?&?&?&?); congruence]].
      destruct (LearnSession.queue ls !! LearnSession.idx ls) as [card|] eqn:Hc;
        [|exfalso; apply Hne; rewrite Hskip; [reflexivity | intros (?&?&?&?&?&?); congruence]].
      exists deck, ls, card. auto.
    + intros (deck & ls & card & Hd & Hs & Hc) Heq.
      rewrite (Hrun _ _ _ Hd Hs Hc) in Heq. cbn [fst] in Heq.
      apply (f_equal learnSession) in Heq. cbn in Heq. rewrite Hs in Heq.
      injection Heq as Heq. apply (f_equal LearnSession.idx) in Heq. cbn in Heq. lia.
  - intros deck ls card (Hd & Hs & Hc). apply Hrun; assumption.
  - exact Hskip.
  - intros deck ls card (Hd & Hs & Hc).
    unfold gradeLearn, reveal. cbn [state learnSession]. rewrite Hd, Hs.
    cbn [LearnSession.queue LearnSession.idx LearnSession.startedAt
         LearnSession.graded LearnSession.total].
    rewrite Hc. reflexivity.
Qed.

(** ** Shuffling: every run returns a permutation *)

Lemma bind_run {A B} (m : Eff A) (k : A -> Eff B) w :
  bind m k w = k (fst (m w)) (snd (m w)).
Proof. unfold bind. destruct (m w). reflexivity. Qed.

Lemma random_ok_entropy w w' : entropy w' = entropy w -> random_ok w -> random_ok w'.
Proof. intros He Hok k. rewrite He. apply Hok. Qed.


Lemma of_nat_nonneg n : 0 <= of_nat n.
Proof. unfold of_nat. change 0 with (inject_Z 0). rewrite <- Zle_Qle. lia. Qed.


(** The values of [r] that draw index [j] at position [i] are those of
    the interval [j / (i + 1) <= r < (j + 1) / (i + 1)], of length
    [1 / (i + 1)] whatever [j] is. *)
Lemma random_index_interval i j r :
  0 <= r ->
  to_index (Math.floor (r * (of_nat i + 1))) = j <->
  of_nat j <= r * (of_nat i + 1) /\ r * (of_nat i + 1) < of_nat j + 1.
Proof.
  intros H0. unfold to_index, Math.floor. rewrite Qfloor_Z.
  pose proof (of_nat_nonneg i) as Hi.
  set (x := r * (of_nat i + 1)).
  assert (Hx : 0 <= x) by (unfold x; nra).
  pose proof (Qfloor_le x) as Hle. pose proof (Qlt_floor x) as Hlt.
  assert (Hnn : (0 <= Qfloor x)%Z).
  { change 0%Z with (Qfloor 0). apply Qfloor_resp_le. exact Hx. }
  split.
  - intros <-. unfold of_nat. rewrite Z2Nat.id by exact Hnn.
    rewrite inject_Z_plus in Hlt. change (inject_Z 1) with 1 in Hlt. lra.
  - intros [Hj1 Hj2]. unfold of_nat in Hj1, Hj2.
    assert (Hj3 : x < inject_Z (Z.of_nat j + 1)).
    { rewrite inject_Z_plus. exact Hj2. }
    assert ((Z.of_nat j <= Qfloor x)%Z).
    { rewrite <- (Qfloor_Z (Z.of_nat j)). apply Qfloor_resp_le. exact Hj1. }
    assert ((Qfloor x < Z.of_nat j + 1)%Z).
    { rewrite Zlt_Qlt. lra. }
    lia.
Qed.

Lemma swap_perm {T} (a : list T) i j : swap a i j ≡ₚ a.
Proof.
  unfold swap. destruct (a !! i) as [x|] eqn:Hi; [|reflexivity].
  destruct (a !! j) as [y|] eqn:Hj; [|reflexivity].
  apply Permutation_insert_swap; assumption.
Qed.


Lemma shuffle_loop_perm {T} i : forall (a : list T) w, fst (shuffle_loop i a w) ≡ₚ a.
Proof.
  induction i as [|i IH]; intros a w; [reflexivity|].
  cbn [shuffle_loop]. unfold bind at 1.
  destruct (random_index (S i) w) as [j w'].
  rewrite IH. apply swap_perm.
Qed.

(** Shuffling reads the random source only. *)
Lemma shuffle_loop_clock {T} i : forall (a : list T) w,
  clock (snd (shuffle_loop i a w)) = clock w /\
  clock_reads (snd (shuffle_loop i a w)) = clock_reads w /\
  entropy (snd (shuffle_loop i a w)) = entropy w /\
  entropy_reads (snd (shuffle_loop i a w)) = (entropy_reads w + i)%nat.
Proof.
  induction i as [|i IH]; intros a w; [cbn; auto with lia|].
  cbn [shuffle_loop]. unfold bind at 1, random_index, bind, Math_random, ret.
  match goal with |- context [shuffle_loop i ?a' ?w'] =>
    destruct (IH a' w') as (H1 & H2 & H3 & H4) end.
  rewrite H1, H2, H3, H4. cbn. auto with lia.
Qed.

Lemma shuffleArray_perm {T} (arr : list T) w : fst (shuffleArray arr w) ≡ₚ arr.
Proof. apply shuffle_loop_perm. Qed.





(** ** Shuffling: every rearrangement is equally likely *)

Section Uniform.
Context {T : Type} `{EqDecision T}.













End Uniform.

(** ** Starting a Learn session *)



Lemma demo_world_ok : random_ok demo_world.
Proof. intros k. cbn. destruct (Nat.even k); split; lra. Qed.


(** ** The scheduler on the heap *)

Lemma put_insert (c : ref) f x v (h : gmap ref CardT.t) w {A} (k : unit -> Obj A) :
  obind (put c f x) k (<[c:=v]> h) w = k tt (<[c:=f v x]> h) w.
Proof. unfold obind, put. rewrite lookup_insert_eq, insert_insert_eq. reflexivity. Qed.

Lemma put_lastReviewed_insert (c : ref) x v (h : gmap ref CardT.t) w {A} (k : unit -> Obj A) :
  obind (put_lastReviewed c x) k (<[c:=v]> h) w = k tt (<[c:=CardT.set_lastReviewed v x]> h) w.
Proof. unfold obind, put_lastReviewed. rewrite lookup_insert_eq, insert_insert_eq. reflexivity. Qed.

Lemma get_insert {B} (c : ref) (f : CardT.t -> B) v (h : gmap ref CardT.t) w {A} (k : B -> Obj A) :
  obind (get c f) k (<[c:=v]> h) w = k (f v) (<[c:=v]> h) w.
Proof. unfold obind, get. rewrite lookup_insert_eq. reflexivity. Qed.

Lemma lift_nowMs (h : gmap ref CardT.t) w {A} (k : number -> Obj A) :
  obind (lift nowMs) k h w = k (fst (nowMs w)) h (snd (nowMs w)).
Proof. reflexivity. Qed.

(** The heap scheduler allocates one object, writes the card that
    [scheduleNext] computes into it, and returns it. *)
Lemma run_heap (card : ref) (g : number) (h : gmap ref CardT.t) (w : World) (v : CardT.t) :
  h !! card = Some v ->
  scheduleNext_heap card g h w =
  Some (fresh (dom h), <[fresh (dom h) := fst (scheduleNext v g w)]> h, snd (scheduleNext v g w)).
Proof.
  intros Hv. unfold scheduleNext_heap.
  unfold obind at 1, copy. rewrite Hv.
  rewrite !get_insert.
  unfold scheduleNext. destruct (g === 0).
  - rewrite !put_insert, lift_nowMs, put_insert, get_insert, !put_insert, lift_nowMs,
      put_lastReviewed_insert.
    reflexivity.
  - rewrite !put_insert, lift_nowMs, !put_insert, lift_nowMs, put_lastReviewed_insert.
    reflexivity.
Qed.

(** C10.  For every card object and every grade the scheduler returns a
    new object, one that did not exist before the call, holding the
    scheduled card; the object passed in holds the same card after the
    call as before, and so does every other object there was: a queue
    of card objects reads the same before and after. *)
Theorem scheduleNext_heap_frame
    (card : ref) (g : number) (h : gmap ref CardT.t) (w : World) (v : CardT.t) :
  h !! card = Some v ->
  exists c h' w',
    scheduleNext_heap card g h w = Some (c, h', w') /\
    h !! c = None /\ c <> card /\
    h' !! c = Some (fst (scheduleNext v g w)) /\
    w' = snd (scheduleNext v g w) /\
    h' !! card = Some v /\
    (forall o, o <> c -> h' !! o = h !! o) /\
    (forall queue : list ref,
       (forall o, o ∈ queue -> is_Some (h !! o)) ->
       (fun o => h' !! o) <$> queue = (fun o => h !! o) <$> queue).
Proof.
  intros Hv.
  assert (Hfresh : h !! fresh (dom h) = None).
  { apply not_elem_of_dom, is_fresh. }
  assert (Hne : fresh (dom h) <> card) by congruence.
  exists (fresh (dom h)), (<[fresh (dom h) := fst (scheduleNext v g w)]> h),
         (snd (scheduleNext v g w)).
  split; [apply run_heap; exact Hv|].
  split; [exact Hfresh|]. split; [exact Hne|].
  split; [apply lookup_insert_eq|]. split; [reflexivity|].
  split; [rewrite lookup_insert_ne by exact Hne; exact Hv|].
  split; [intros o Ho; apply lookup_insert_ne; congruence|].
  intros queue Hq. apply list_fmap_ext. intros i o Hio.
  apply lookup_insert_ne. intros <-.
  destruct (Hq (fresh (dom h))) as [x Hx]; [eapply list_elem_of_lookup_2; exact Hio|].
  congruence.
Qed.

Lemma scheduleNext_heap_frame_witness :
  let v := CardT.mk "c1" "NIST" "A US standards body" 0 2.3 0 0 0 None in
  let h : gmap ref CardT.t := {[ 7%nat := v ]} in
  exists c h' w',
    scheduleNext_heap 7%nat Good h (steady_world 1000) = Some (c, h', w') /\
    c <> 7%nat /\ h' !! 7%nat = Some v.
Proof.
  intros v h.
  destruct (scheduleNext_heap_frame 7%nat Good h (steady_world 1000) v)
    as (c & h' & w' & Hrun & _ & Hne & _ & _ & Hsame & _).
  - reflexivity.
  - exists c, h', w'. auto.
Defined.

(** * Part III: further properties of the code *)

(** ** More on [clamp] *)

(** Case analysis on every comparison made by [Math.max], [Math.min]
    and [clamp]. *)
Ltac case_minmax :=
  unfold clamp, Math.max, Math.min in *;
  repeat match goal with
         | |- context [Qlt_le_dec ?x ?y] => destruct (Qlt_le_dec x y)
         | H : context [Qlt_le_dec ?x ?y] |- _ => destruct (Qlt_le_dec x y)
         end.

(** X1.  With [a <= b], [clamp(n, a, b)] lies in [a, b], is [n] exactly
    when [n] lies in [a, b], is [a] below and [b] above, and clamping
    twice is clamping once. *)
Theorem clamp_fixpoints (n a b : number) :
  a <= b ->
  (a <= clamp n a b /\ clamp n a b <= b) /\
  (clamp n a b == n <-> a <= n /\ n <= b) /\
  (n <= a -> clamp n a b == a) /\
  (b <= n -> clamp n a b == b) /\
  clamp (clamp n a b) a b == clamp n a b.
Proof.
  intros Hab. case_minmax; intuition lra.
Qed.

Lemma clamp_fixpoints_witness : clamp 2.3 1.3 3.0 == 2.3 /\ clamp 5 1.3 3.0 == 3.0.
Proof.
  destruct (clamp_fixpoints 2.3 1.3 3.0 ltac:(lra)) as (_ & Hfix & _).
  destruct (clamp_fixpoints 5 1.3 3.0 ltac:(lra)) as (_ & _ & _ & Hhi & _).
  split; [apply Hfix; split; lra | apply Hhi; lra].
Defined.

(** ** More on the scheduler *)

Lemma success_interval_cases (r x : number) (b : bool) :
  let i := if r === 1 then 1 else if r === 2 then (if b then 2 else 3)
           else Math.max 1 (Math.round x) in
  1 <= i /\ exists k : Z, (0 <= k)%Z /\ i == inject_Z k.
Proof.
  cbv zeta. destruct (r === 1); [split; [lra | exists 1%Z; split; [lia | reflexivity]]|].
  destruct (r === 2).
  { destruct b; (split; [lra|]); [exists 2%Z | exists 3%Z]; split; try lia; reflexivity. }
  split; [apply max_ge_l|].
  unfold Math.max, Math.round.
  destruct (Qlt_le_dec 1 (inject_Z (Qfloor (x + 0.5)))) as [Hlt|Hle].
  - exists (Qfloor (x + 0.5)). split; [|reflexivity].
    change 1 with (inject_Z 1) in Hlt. rewrite <- Zlt_Qlt in Hlt. lia.
  - exists 1%Z. split; [lia | reflexivity].
Qed.

(** X2.  Whatever the grade value, the scheduler leaves [id], [term] and
    [definition] as they are and sets [lastReviewed]; only grade 0
    changes [lapses], and only a grade other than 0 changes [reps] to
    something else than 0. *)
Theorem scheduleNext_frame (c : CardT.t) (g : number) (w : World) :
  let c' := fst (scheduleNext c g w) in
  CardT.id c' = CardT.id c /\
  CardT.term c' = CardT.term c /\
  CardT.definition c' = CardT.definition c /\
  CardT.lastReviewed c' = Some (clock w (S (clock_reads w))) /\
  (~ g == 0 -> CardT.lapses c' = CardT.lapses c /\ CardT.reps c' = CardT.reps c + 1) /\
  (g == 0 -> CardT.reps c' = 0 /\ CardT.interval c' = 0).
Proof.
  cbv zeta. rewrite scheduleNext_card. cbv zeta.
  destruct (g === 0) eqn:E;
    cbn [CardT.id CardT.term CardT.definition CardT.lastReviewed CardT.lapses
         CardT.reps CardT.interval];
    (split; [reflexivity|]); (split; [reflexivity|]); (split; [reflexivity|]);
    (split; [reflexivity|]); split; intros Hg.
  - apply Qeq_bool_iff in E. contradiction.
  - split; reflexivity.
  - split; reflexivity.
  - apply strict_eq_true in Hg. congruence.
Qed.


Lemma success_interval_ge_1 (c : CardT.t) (g : number) (w : World) :
  ~ g == 0 -> 1 <= CardT.interval (fst (scheduleNext c g w)).
Proof.
  intros Hg. rewrite scheduleNext_card. cbv zeta.
  rewrite (strict_eq_false g 0 Hg). cbn [CardT.interval].
  apply (success_interval_cases (CardT.reps c + 1) _ (g === 1)).
Qed.

Lemma success_due (c : CardT.t) (g : number) (w : World) :
  ~ g == 0 ->
  CardT.due (fst (scheduleNext c g w)) ==
  clock w (clock_reads w) + CardT.interval (fst (scheduleNext c g w)) * 86400000.
Proof.
  intros Hg. rewrite scheduleNext_card. cbv zeta.
  rewrite (strict_eq_false g 0 Hg). cbn [CardT.due CardT.interval]. ring.
Qed.

Lemma grade_number_nonzero (g : Grade) : g <> Again -> ~ grade_number g == 0.
Proof. destruct g; [congruence| | |]; intros _; cbn; intros H; discriminate H. Qed.

(** X4.  A card graded Hard, Good or Easy at time [now] leaves the due
    part for at least one day: it is not due at any time before
    [now + 86400000], and it is due from [now + interval * 86400000] on.
    A card graded Again at [now] is due at [now] and at any later
    time. *)
Theorem graded_card_due (c : CardT.t) (g : Grade) (now : number) (w : World) :
  clock_steady now 2 w ->
  let c' := fst (scheduleNext c g w) in
  (g <> Again ->
     (forall t, t < now + 86400000 -> is_due t c' = false) /\
     (forall t, is_due t c' = true <-> now + CardT.interval c' * 86400000 <= t)) /\
  (g = Again -> forall t, is_due t c' = true <-> now <= t).
Proof.
  intros Hnow c'. subst c'. split.
  - intros Hg. apply grade_number_nonzero in Hg.
    pose proof (success_interval_ge_1 c g w Hg) as H1.
    pose proof (success_due c g w Hg) as Hd.
    rewrite (clock_steady_0 _ _ _ Hnow) in Hd.
    split; intros t.
    + intros Ht. apply not_true_iff_false. rewrite is_due_iff. lra.
    + rewrite is_due_iff. rewrite Hd. reflexivity.
  - intros -> t. rewrite is_due_iff, scheduleNext_card. literal_tests.
    cbn [CardT.due]. rewrite (clock_steady_0 _ _ _ Hnow). reflexivity.
Qed.

Lemma graded_card_due_witness :
  is_due (1000 + 86399999)
    (fst (scheduleNext (CardT.mk "c" "t" "d" 0 2.3 0 0 0 None) Good (steady_world 1000))) = false.
Proof.
  destruct (graded_card_due (CardT.mk "c" "t" "d" 0 2.3 0 0 0 None) Good 1000
              (steady_world 1000) (steady_world_steady 1000 2)) as [H _].
  destruct (H ltac:(discriminate)) as [Hnot _].
  apply Hnot. vm_compute. reflexivity.
Defined.

Lemma growth_interval_mono (i e1 e2 m1 m2 : number) :
  0 < e1 -> e1 <= e2 -> 0 < m1 -> m1 <= m2 ->
  Math.max 1 (Math.round (i * e1 * m1)) <= Math.max 1 (Math.round (i * e2 * m2)).
Proof.
  intros He1 He Hm1 Hm.
  destruct (Qlt_le_dec i 0) as [Hneg|Hpos].
  - assert (Hie : i * e1 < 0) by nra.
    assert (Hneg' : i * e1 * m1 < 0) by nra.
    rewrite (max1_round_nonpos (i * e1 * m1) Hneg'). apply max_ge_l.
  - apply max_mono, round_mono.
    assert (i * e1 <= i * e2) by nra.
    assert (0 <= i * e1) by nra. nra.
Qed.



(** X6.  The grades order the new ease factor: Again gives at most what
    Hard gives, Hard at most what Good gives, Good at most what Easy
    gives.  For a card whose [ef] is in [1.3, 3.0], Again and Hard do
    not raise it and Good and Easy do not lower it. *)
Theorem ef_ordered_by_grade (c : CardT.t) (w : World) :
  let ef' (g : Grade) := CardT.ef (fst (scheduleNext c g w)) in
  (ef' Again <= ef' Hard /\ ef' Hard <= ef' Good /\ ef' Good <= ef' Easy) /\
  (1.3 <= CardT.ef c -> CardT.ef c <= 3.0 ->
   ef' Hard <= CardT.ef c /\ CardT.ef c <= ef' Good).
Proof.
  cbv beta zeta. rewrite !scheduleNext_card. literal_tests. cbn [CardT.ef].
  split.
  - split; [apply clamp_mono; lra|]. split; apply clamp_mono; lra.
  - intros Hlo Hhi. case_minmax; split; lra.
Qed.

(** X7.  For every card the new interval grows with the grade: Hard
    gives at most what Good gives, and Good at most what Easy gives,
    whatever the repetition count. *)
Theorem interval_ordered_by_grade (c : CardT.t) (w : World) :
  let interval' (g : Grade) := CardT.interval (fst (scheduleNext c g w)) in
  interval' Hard <= interval' Good /\ interval' Good <= interval' Easy.
Proof.
  cbv beta zeta. rewrite !scheduleNext_card. literal_tests. cbn [CardT.interval].
  assert (HH : 1.3 <= clamp (CardT.ef c - 0.05) 1.3 3.0) by (apply clamp_range; lra).
  assert (HG : 1.3 <= clamp (CardT.ef c + 0.02) 1.3 3.0) by (apply clamp_range; lra).
  assert (H1 : clamp (CardT.ef c - 0.05) 1.3 3.0 <= clamp (CardT.ef c + 0.02) 1.3 3.0)
    by (apply clamp_mono; lra).
  assert (H2 : clamp (CardT.ef c + 0.02) 1.3 3.0 <= clamp (CardT.ef c + 0.08) 1.3 3.0)
    by (apply clamp_mono; lra).
  destruct (CardT.reps c + 1 === 1); [split; lra|].
  destruct (CardT.reps c + 1 === 2); [split; lra|].
  split; apply growth_interval_mono; lra.
Qed.

(** ** More on [shuffleArray] *)

(** X8.  [shuffleArray] returns a rearrangement of its argument, of the
    same length; it draws [length - 1] random numbers (none for an
    empty array), never reads the clock, and returns an array of at
    most one element as it is. *)
Theorem shuffleArray_effect {T} (arr : list T) (w : World) :
  random_ok w ->
  let r := shuffleArray arr w in
  fst r ≡ₚ arr /\ List.length (fst r) = List.length arr /\
  clock (snd r) = clock w /\ clock_reads (snd r) = clock_reads w /\
  entropy (snd r) = entropy w /\
  entropy_reads (snd r) = (entropy_reads w + (List.length arr - 1))%nat /\
  ((List.length arr <= 1)%nat -> r = (arr, w)).
Proof.
  intros _. cbv zeta.
  split; [apply shuffleArray_perm|].
  split; [apply Permutation_length, shuffleArray_perm|].
  destruct (shuffle_loop_clock (List.length arr - 1) arr w) as (H1 & H2 & H3 & H4).
  repeat (split; [assumption|]).
  intros Hlen. unfold shuffleArray.
  replace (List.length arr - 1)%nat with 0%nat by lia. reflexivity.
Qed.

Lemma shuffleArray_effect_witness :
  fst (shuffleArray [1%nat; 2%nat; 3%nat] demo_world) ≡ₚ [1%nat; 2%nat; 3%nat].
Proof. apply (shuffleArray_effect [1%nat; 2%nat; 3%nat] demo_world demo_world_ok). Defined.

(** ** Effects keep the oracles *)

Lemma keeps_ret {A} (a : A) : keeps_oracles (ret a).
Proof. intros w. split; reflexivity. Qed.

Lemma keeps_bind {A B} (m : Eff A) (k : A -> Eff B) :
  keeps_oracles m -> (forall a, keeps_oracles (k a)) -> keeps_oracles (bind m k).
Proof.
  intros Hm Hk w. rewrite bind_run.
  destruct (Hm w) as [H1 H2]. destruct (Hk (fst (m w)) (snd (m w))) as [H3 H4].
  split; congruence.
Qed.

Lemma keeps_Date_now : keeps_oracles Date_now.
Proof. intros w. split; reflexivity. Qed.

Lemma keeps_Math_random : keeps_oracles Math_random.
Proof. intros w. split; reflexivity. Qed.

Lemma keeps_mapM {A B} (f : A -> Eff B) (l : list A) :
  (forall x, keeps_oracles (f x)) -> keeps_oracles (mapM f l).
Proof.
  intros Hf. induction l as [|x l IH]; cbn [mapM]; [apply keeps_ret|].
  apply keeps_bind; [apply Hf|]. intros y.
  apply keeps_bind; [exact IH|]. intros ys. apply keeps_ret.
Qed.

Lemma keeps_filterM {A} (f : A -> Eff bool) (l : list A) :
  (forall x, keeps_oracles (f x)) -> keeps_oracles (filterM f l).
Proof.
  intros Hf. induction l as [|x l IH]; cbn [filterM]; [apply keeps_ret|].
  apply keeps_bind; [apply Hf|]. intros y.
  apply keeps_bind; [exact IH|]. intros ys. apply keeps_ret.
Qed.

Lemma keeps_shuffleArray {T} (arr : list T) : keeps_oracles (shuffleArray arr).
Proof.
  intros w. destruct (shuffle_loop_clock (List.length arr - 1) arr w) as (H1 & _ & H3 & _).
  split; assumption.
Qed.

Lemma frozen_after {A} (m : Eff A) now w :
  keeps_oracles m -> clock_frozen now w -> clock_frozen now (snd (m w)).
Proof. intros Hm Hw k. destruct (Hm w) as [-> _]. apply Hw. Qed.

Lemma random_ok_after {A} (m : Eff A) w :
  keeps_oracles m -> random_ok w -> random_ok (snd (m w)).
Proof. intros Hm Hw. apply (random_ok_entropy w); [apply Hm | exact Hw]. Qed.

Lemma frozen_nowMs now w : clock_frozen now w -> fst (nowMs w) = now.
Proof. intros H. apply H. Qed.

Lemma mapM_length {A B} (f : A -> Eff B) (l : list A) : forall w,
  List.length (fst (mapM f l w)) = List.length l.
Proof.
  induction l as [|x l IH]; intros w; [reflexivity|].
  cbn [mapM]. rewrite !bind_run. cbn. rewrite IH. reflexivity.
Qed.

(** Every element of the result comes from the element at its place. *)
Lemma mapM_Forall2 {A B} (f : A -> Eff B) (P : A -> B -> Prop) (l : list A) :
  (forall x w, P x (fst (f x w))) -> forall w, Forall2 P l (fst (mapM f l w)).
Proof.
  intros Hf. induction l as [|x l IH]; intros w; [constructor|].
  cbn [mapM]. rewrite !bind_run. cbn. constructor; [apply Hf | apply IH].
Qed.

(** With the clock frozen, a traversal whose callback's result does not
    depend on the counters is a [map]. *)
Lemma mapM_frozen {A B} (f : A -> Eff B) (g : A -> B) now (l : list A) :
  (forall x, keeps_oracles (f x)) ->
  (forall x w, clock_frozen now w -> fst (f x w) = g x) ->
  forall w, clock_frozen now w -> fst (mapM f l w) = List.map g l.
Proof.
  intros Hk Hf. induction l as [|x l IH]; intros w Hw; [reflexivity|].
  cbn [mapM]. rewrite !bind_run. cbn.
  rewrite (Hf x w Hw), IH; [reflexivity|]. apply frozen_after; [apply Hk | exact Hw].
Qed.

Lemma AppState_eta (s : AppState) :
  {| decks := decks s; selectedDeckId := selectedDeckId s |} = s.
Proof. destruct s. reflexivity. Qed.

Lemma DeckT_eta (d : DeckT.t) :
  DeckT.mk (DeckT.id d) (DeckT.name d) (DeckT.description d) (DeckT.cards d) = d.
Proof. destruct d. reflexivity. Qed.

Lemma map_id_on {A} (f : A -> A) (l : list A) :
  (forall x, x ∈ l -> f x = x) -> List.map f l = l.
Proof.
  induction l as [|x l IH]; intros H; cbn; [reflexivity|].
  rewrite (H x) by left. rewrite IH; [reflexivity|].
  intros y Hy. apply H. right. exact Hy.
Qed.

Lemma filter_none {A} (f : A -> bool) (l : list A) :
  (forall x, In x l -> f x = false) -> List.filter f l = [].
Proof.
  induction l as [|a l IH]; intros H; [reflexivity|].
  cbn. rewrite (H a (or_introl eq_refl)). apply IH. intros x Hx. apply H. right. exact Hx.
Qed.

Lemma filter_all {A} (f : A -> bool) (l : list A) :
  (forall x, x ∈ l -> f x = true) -> List.filter f l = l.
Proof.
  induction l as [|x l IH]; intros H; cbn; [reflexivity|].
  rewrite (H x) by left. rewrite IH; [reflexivity|].
  intros y Hy. apply H. right. exact Hy.
Qed.

(** ** The selected deck *)

(** X9.  A deck is selected exactly when there is a deck.  The selected
    deck is the first deck that has the selected identifier; when no
    deck has it, or nothing is selected, it is the first deck. *)
Theorem selectedDeck_fallback (s : AppState) :
  (selectedDeck s = None <-> decks s = []) /\
  (forall d, selectedDeck s = Some d -> d ∈ decks s) /\
  (forall sel d, selectedDeckId s = Some sel -> d ∈ decks s -> DeckT.id d = sel ->
     exists d', selectedDeck s = Some d' /\ DeckT.id d' = sel) /\
  ((forall d, d ∈ decks s -> Some (DeckT.id d) <> selectedDeckId s) ->
     selectedDeck s = head (decks s)).
Proof.
  unfold selectedDeck.
  set (p := fun x : DeckT.t => match selectedDeckId s with
                               | Some sel => String.eqb (DeckT.id x) sel
                               | None => false
                               end).
  split; [|split; [|split]].
  - destruct (List.find p (decks s)) as [d|] eqn:Hf.
    + split; [discriminate|]. intros Hnil. rewrite Hnil in Hf. discriminate.
    + destruct (decks s); cbn; split; congruence.
  - intros d. destruct (List.find p (decks s)) as [d'|] eqn:Hf.
    + intros [= <-]. apply find_some in Hf as [Hin _]. apply list_elem_of_In. exact Hin.
    + destruct (decks s) as [|d0 l]; cbn; [discriminate|].
      intros [= <-]. left.
  - intros sel d Hsel Hin Hid.
    destruct (List.find p (decks s)) as [d'|] eqn:Hf.
    + exists d'. split; [reflexivity|].
      apply find_some in Hf as [_ Hp]. unfold p in Hp. rewrite Hsel in Hp.
      apply String.eqb_eq. exact Hp.
    + exfalso. apply list_elem_of_In in Hin.
      pose proof (find_none _ _ Hf d Hin) as Hp. unfold p in Hp. rewrite Hsel in Hp.
      apply String.eqb_neq in Hp. contradiction.
  - intros Hno. destruct (List.find p (decks s)) as [d|] eqn:Hf; [|reflexivity].
    exfalso. apply find_some in Hf as [Hin Hp]. unfold p in Hp.
    destruct (selectedDeckId s) as [sel|] eqn:Hsel; [|discriminate].
    apply String.eqb_eq in Hp. apply (Hno d); [apply list_elem_of_In; exact Hin|].
    congruence.
Qed.

(** ** Updates by identifier *)

(** X10.  An update by an identifier nobody has changes nothing:
    [updateDeck] when no deck has the deck identifier, [updateCard] and
    [deleteCard] when no card with the card identifier is in a deck with
    the deck identifier. *)
Theorem update_unknown_identifier (deckId cardId : string) (s : AppState) :
  ((forall d, d ∈ decks s -> DeckT.id d <> deckId) ->
     forall updater, updateDeck deckId updater s = s) /\
  ((forall d c, d ∈ decks s -> DeckT.id d = deckId -> c ∈ DeckT.cards d ->
               CardT.id c <> cardId) ->
     (forall patch, updateCard deckId cardId patch s = s) /\
     deleteCard deckId cardId s = s).
Proof.
  split.
  - intros Hno updater. unfold updateDeck. rewrite map_id_on; [apply AppState_eta|].
    intros d Hd. apply Hno in Hd. apply String.eqb_neq in Hd. rewrite Hd. reflexivity.
  - intros Hno. split; [intros patch|]; unfold updateCard, deleteCard, updateDeck;
      (rewrite map_id_on; [apply AppState_eta|]); intros d Hd;
      destruct (String.eqb (DeckT.id d) deckId) eqn:E; try reflexivity;
      apply String.eqb_eq in E.
    + rewrite map_id_on; [apply DeckT_eta|]. intros c Hc.
      pose proof (Hno d c Hd E Hc) as Hne. apply String.eqb_neq in Hne.
      rewrite Hne. reflexivity.
    + rewrite filter_all; [apply DeckT_eta|]. intros c Hc.
      pose proof (Hno d c Hd E Hc) as Hne. apply String.eqb_neq in Hne.
      rewrite Hne. reflexivity.
Qed.

(** ** Deleting a card *)

Lemma Forall2_map_self {A} (R : A -> A -> Prop) (f : A -> A) (l : list A) :
  (forall x, x ∈ l -> R x (f x)) -> Forall2 R l (List.map f l).
Proof.
  induction l as [|x l IH]; intros H; cbn; constructor.
  - apply H. left.
  - apply IH. intros y Hy. apply H. right. exact Hy.
Qed.

Lemma filter_filter_same {A} (f : A -> bool) (l : list A) :
  List.filter f (List.filter f l) = List.filter f l.
Proof.
  apply filter_all. intros x Hx. apply list_elem_of_In, filter_In in Hx. tauto.
Qed.

(** X11.  [deleteCard] removes from every deck that has the deck
    identifier exactly the cards that have the card identifier, keeps
    the other cards in their order, and leaves the other decks, the
    names and the selection as they are.  Deleting twice is deleting
    once. *)
Theorem deleteCard_removes (deckId cardId : string) (s : AppState) :
  let s' := deleteCard deckId cardId s in
  selectedDeckId s' = selectedDeckId s /\
  Forall2 (fun d d' =>
             DeckT.id d' = DeckT.id d /\ DeckT.name d' = DeckT.name d /\
             DeckT.description d' = DeckT.description d /\
             (DeckT.id d <> deckId -> d' = d) /\
             (DeckT.id d = deckId ->
                forall c, c ∈ DeckT.cards d' <-> c ∈ DeckT.cards d /\ CardT.id c <> cardId) /\
             sublist (DeckT.cards d') (DeckT.cards d))
          (decks s) (decks s') /\
  deleteCard deckId cardId s' = s'.
Proof.
  cbv zeta. split; [reflexivity|]. split.
  - unfold deleteCard, updateDeck. cbn [decks]. apply Forall2_map_self.
    intros d _. destruct (String.eqb (DeckT.id d) deckId) eqn:E.
    + apply String.eqb_eq in E. cbn [DeckT.id DeckT.name DeckT.description DeckT.cards].
      do 3 (split; [reflexivity|]). split; [intros Hne; contradiction|]. split.
      * intros _ c. rewrite !list_elem_of_In, filter_In, negb_true_iff, String.eqb_neq.
        reflexivity.
      * apply filter_sublist.
    + apply String.eqb_neq in E. do 3 (split; [reflexivity|]).
      split; [intros _; reflexivity|]. split; [intros H; contradiction | reflexivity].
  - unfold deleteCard, updateDeck. cbn [decks selectedDeckId]. f_equal.
    rewrite List.map_map. apply map_ext. intros d.
    destruct (String.eqb (DeckT.id d) deckId) eqn:E; cbn [DeckT.id]; rewrite E; [|reflexivity].
    cbn. rewrite filter_filter_same. reflexivity.
Qed.

(** ** Decks and cards that need identifiers *)

Section WithIdentifiers.
Variable toString16 : number -> string.

Lemma keeps_uid : keeps_oracles (uid toString16).
Proof.
  unfold uid. apply keeps_bind; [apply keeps_Math_random|]. intros r.
  apply keeps_bind; [apply keeps_Date_now|]. intros t. apply keeps_ret.
Qed.

Lemma defaultData_shape (w : World) :
  exists deckId i1 i2 i3 t1 t2 t3,
    fst (defaultData toString16 w) =
    {| decks :=
         [DeckT.mk deckId "Sample Deck"
            "A few example cards. Create your own deck and start practicing."
            [new_card i1 "NIST"
               "A US standards body, often referenced for security frameworks." t1;
             new_card i2 "COBIT"
               "A framework for governance and management of enterprise IT." t2;
             new_card i3 "ITGC"
               "IT general controls that support reliable system operation." t3]];
       selectedDeckId := Some deckId |}.
Proof.
  do 7 eexists. unfold defaultData. rewrite !bind_run. cbn [mapM].
  rewrite !bind_run. cbn [ret fst snd]. reflexivity.
Qed.

Lemma selectedDeck_head (d : DeckT.t) (l : list DeckT.t) :
  selectedDeck {| decks := d :: l; selectedDeckId := Some (DeckT.id d) |} = Some d.
Proof. unfold selectedDeck. cbn. rewrite String.eqb_refl. reflexivity. Qed.

(** X12.  [deleteDeck] removes every deck that has the identifier, keeps
    the others in their order and selects the first of them.  When no
    deck is left it installs the sample data instead: one deck, "Sample
    Deck", with the three sample cards, each new.  Either way the state
    it returns has a deck, and the selected deck is its first deck. *)
Theorem deleteDeck_keeps_a_deck (deckId : string) (s : AppState) (w : World) :
  let next := List.filter (fun d => negb (String.eqb (DeckT.id d) deckId)) (decks s) in
  let s' := fst (deleteDeck toString16 deckId s w) in
  (forall d, d ∈ next <-> d ∈ decks s /\ DeckT.id d <> deckId) /\
  (next <> [] ->
     deleteDeck toString16 deckId s w =
     ({| decks := next; selectedDeckId := DeckT.id <$> head next |}, w)) /\
  (next = [] ->
     exists deckId' i1 i2 i3 t1 t2 t3,
       s' = {| decks :=
                 [DeckT.mk deckId' "Sample Deck"
                    "A few example cards. Create your own deck and start practicing."
                    [new_card i1 "NIST"
                       "A US standards body, often referenced for security frameworks." t1;
                     new_card i2 "COBIT"
                       "A framework for governance and management of enterprise IT." t2;
                     new_card i3 "ITGC"
                       "IT general controls that support reliable system operation." t3]];
               selectedDeckId := Some deckId' |}) /\
  decks s' <> [] /\ selectedDeck s' = head (decks s').
Proof.
  cbv zeta. unfold deleteDeck.
  set (next := List.filter (fun d => negb (String.eqb (DeckT.id d) deckId)) (decks s)).
  split.
  { intros d. unfold next.
    rewrite !list_elem_of_In, filter_In, negb_true_iff, String.eqb_neq. reflexivity. }
  destruct next as [|first rest] eqn:Hnext.
  - split; [congruence|]. split; [intros _; apply defaultData_shape|].
    destruct (defaultData_shape w) as (d0 & i1 & i2 & i3 & t1 & t2 & t3 & ->).
    split; [discriminate|]. apply selectedDeck_head.
  - split; [intros _; reflexivity|]. split; [discriminate|].
    cbn [fst decks]. split; [discriminate|]. apply selectedDeck_head.
Qed.

(** X13.  [addDeck] puts an empty deck named "New Deck" in front of the
    decks, which it leaves as they are, and that deck is the selected
    deck afterwards. *)
Theorem addDeck_selects_new (s : AppState) (w : World) :
  let s' := fst (addDeck toString16 s w) in
  let deck := DeckT.mk (fst (uid toString16 w)) "New Deck" "" [] in
  decks s' = deck :: decks s /\
  selectedDeck s' = Some deck /\
  fst (stats (selectedDeck s') (snd (addDeck toString16 s w))) = Stats.mk 0 0 0.
Proof.
  cbv zeta. unfold addDeck. rewrite bind_run. cbn [ret fst snd decks].
  split; [reflexivity|].
  pose proof (selectedDeck_head (DeckT.mk (fst (uid toString16 w)) "New Deck" "" [])
                (decks s)) as Hsel.
  cbn [DeckT.id] in Hsel. rewrite Hsel. split; reflexivity.
Qed.

(** [updateDeckE] on decks none of which has the identifier. *)
Lemma mapM_no_match (deckId : string) (updater : DeckT.t -> Eff DeckT.t) (l : list DeckT.t) w :
  (forall d, d ∈ l -> DeckT.id d <> deckId) ->
  mapM (fun d => if String.eqb (DeckT.id d) deckId then updater d else ret d) l w = (l, w).
Proof.
  induction l as [|d l IH]; intros Hno; [reflexivity|].
  cbn [mapM]. rewrite !bind_run.
  assert (E : String.eqb (DeckT.id d) deckId = false).
  { apply String.eqb_neq, Hno. left. }
  rewrite E. cbn [ret fst snd]. rewrite IH; [reflexivity|].
  intros d' Hd'. apply Hno. right. exact Hd'.
Qed.

(** With distinct deck identifiers the updater runs at most once, in the
    world [updateDeckE] is called in. *)
Lemma updateDeckE_distinct (deckId : string) (updater : DeckT.t -> Eff DeckT.t)
    (s : AppState) (w : World) :
  NoDup (List.map DeckT.id (decks s)) ->
  fst (updateDeckE deckId updater s w) = updateDeck deckId (fun d => fst (updater d w)) s.
Proof.
  intros Hnd. unfold updateDeckE, updateDeck. rewrite bind_run. cbn [ret fst]. f_equal.
  revert Hnd. generalize (decks s) as l.
  induction l as [|d l IH]; intros Hnd; [reflexivity|].
  cbn [List.map] in Hnd. apply NoDup_cons in Hnd as [Hd Hnd].
  cbn [mapM List.map]. rewrite !bind_run.
  destruct (String.eqb (DeckT.id d) deckId) eqn:E.
  - apply String.eqb_eq in E. cbn [ret fst].
    assert (Hno : forall d', d' ∈ l -> DeckT.id d' <> deckId).
    { intros d' Hd' Heq. apply Hd. rewrite E, <- Heq.
      apply list_elem_of_In, in_map, list_elem_of_In. exact Hd'. }
    rewrite mapM_no_match by exact Hno. cbn [fst]. f_equal.
    symmetry. apply map_id_on. intros d' Hd'.
    apply Hno in Hd'. apply String.eqb_neq in Hd'. rewrite Hd'. reflexivity.
  - cbn [ret fst snd]. f_equal. apply IH. exact Hnd.
Qed.

(** X14.  In a state whose decks have distinct identifiers, [addCard]
    puts one new card in front of the cards of the deck that has the
    identifier: the given term and definition, [ef] 2.3, no repetition,
    interval, lapse or review, and due from the moment it was made.  It
    changes nothing else. *)
Theorem addCard_in_front (deckId term definition : string) (s : AppState) (w : World) :
  NoDup (List.map DeckT.id (decks s)) ->
  let card := CardT.mk (fst (uid toString16 w)) term definition
                (clock w (S (clock_reads w))) 2.3 0 0 0 None in
  fst (addCard toString16 deckId term definition s w) =
    updateDeck deckId (fun d =>
      DeckT.mk (DeckT.id d) (DeckT.name d) (DeckT.description d) (card :: DeckT.cards d)) s /\
  (forall t, is_due t card = true <-> clock w (S (clock_reads w)) <= t) /\
  is_mastered card = false.
Proof.
  intros Hnd. cbv zeta. split; [|split].
  - unfold addCard. rewrite updateDeckE_distinct by exact Hnd. reflexivity.
  - intros t. apply is_due_iff.
  - reflexivity.
Qed.

(** X15.  In such a state, deleting the card that [addCard] has just
    added gives back the state from before, provided no card of that
    deck already had the new identifier. *)
Theorem addCard_then_deleteCard (deckId term definition : string) (s : AppState) (w : World) :
  NoDup (List.map DeckT.id (decks s)) ->
  (forall d c, d ∈ decks s -> DeckT.id d = deckId -> c ∈ DeckT.cards d ->
               CardT.id c <> fst (uid toString16 w)) ->
  deleteCard deckId (fst (uid toString16 w))
    (fst (addCard toString16 deckId term definition s w)) = s.
Proof.
  intros Hnd Hfresh. unfold addCard. rewrite updateDeckE_distinct by exact Hnd.
  unfold deleteCard, updateDeck. cbn [decks selectedDeckId].
  rewrite List.map_map. rewrite map_id_on; [apply AppState_eta|].
  intros d Hd. destruct (String.eqb (DeckT.id d) deckId) eqn:E; [|rewrite E; reflexivity].
  rewrite !bind_run.
  cbn [ret fst DeckT.id DeckT.name DeckT.description DeckT.cards new_card].
  rewrite E. apply String.eqb_eq in E.
  cbn [List.filter CardT.id new_card]. unfold new_card at 1. cbn [CardT.id].
  rewrite String.eqb_refl. cbn [negb].
  rewrite filter_all; [apply DeckT_eta|].
  intros c Hc. apply negb_true_iff, String.eqb_neq. apply (Hfresh d c Hd E Hc).
Qed.

End WithIdentifiers.

Lemma NoDup_demo_decks : NoDup (List.map DeckT.id (decks (state demo_app))).
Proof. cbn. apply NoDup_singleton. Qed.

Lemma addCard_in_front_witness :
  (DeckT.cards <$> decks (fst (addCard demo_hex "d1" "term" "definition"
                                 (state demo_app) demo_world)))
  = [CardT.mk "818b" "term" "definition" 1000 2.3 0 0 0 None :: DeckT.cards demo_deck].
Proof.
  destruct (addCard_in_front demo_hex "d1" "term" "definition" (state demo_app) demo_world
              NoDup_demo_decks) as [H _].
  rewrite H. reflexivity.
Defined.

Lemma addCard_then_deleteCard_witness :
  deleteCard "d1" "818b"
    (fst (addCard demo_hex "d1" "term" "definition" (state demo_app) demo_world))
  = state demo_app.
Proof.
  apply (addCard_then_deleteCard demo_hex "d1" "term" "definition" (state demo_app) demo_world
           NoDup_demo_decks).
  intros d c Hd _ Hc.
  apply list_elem_of_In in Hd. cbn in Hd. destruct Hd as [<-|[]].
  apply list_elem_of_In in Hc. cbn in Hc.
  intuition (subst; discriminate).
Defined.

(** ** Resetting progress, and the statistics *)

Lemma updateDeckE_frozen (deckId : string) (updater : DeckT.t -> Eff DeckT.t)
    (u : DeckT.t -> DeckT.t) (now : number) (s : AppState) (w : World) :
  (forall d, keeps_oracles (updater d)) ->
  (forall d w, clock_frozen now w -> fst (updater d w) = u d) ->
  clock_frozen now w ->
  fst (updateDeckE deckId updater s w) = updateDeck deckId u s.
Proof.
  intros Hk Hu Hw. unfold updateDeckE, updateDeck. rewrite bind_run. cbn [ret fst]. f_equal.
  apply (mapM_frozen _ (fun d => if String.eqb (DeckT.id d) deckId then u d else d) now).
  - intros d. destruct (String.eqb (DeckT.id d) deckId); [apply Hk | apply keeps_ret].
  - intros d w' Hw'. destruct (String.eqb (DeckT.id d) deckId); [apply Hu; exact Hw' | reflexivity].
  - exact Hw.
Qed.

Lemma keeps_nowMs : keeps_oracles nowMs.
Proof. apply keeps_Date_now. Qed.

(** The cards [resetProgress] writes when the clock stands at [now]. *)
Lemma reset_cards_frozen (now : number) (cards : list CardT.t) (w : World) :
  clock_frozen now w ->
  fst (mapM (fun c => let! due := nowMs in
                      ret (new_card (CardT.id c) (CardT.term c) (CardT.definition c) due))
            cards w)
  = List.map (fun c => new_card (CardT.id c) (CardT.term c) (CardT.definition c) now) cards.
Proof.
  apply mapM_frozen.
  - intros c. apply keeps_bind; [apply keeps_nowMs | intros; apply keeps_ret].
  - intros c w' Hw'. rewrite bind_run. cbn [ret fst]. rewrite (frozen_nowMs now w' Hw').
    reflexivity.
Qed.

(** X16.  While the clock stands at [now], [resetProgress] turns every
    card of the decks that have the identifier into a new card that is
    due at [now], keeping its [id], [term] and [definition] and its
    place; it leaves everything else as it is, and resetting a second
    time changes nothing more. *)
Theorem resetProgress_restores_defaults (deckId : string) (now : number)
    (s : AppState) (w : World) :
  clock_frozen now w ->
  let fresh_deck d :=
    DeckT.mk (DeckT.id d) (DeckT.name d) (DeckT.description d)
      (List.map (fun c => CardT.mk (CardT.id c) (CardT.term c) (CardT.definition c)
                            now 2.3 0 0 0 None) (DeckT.cards d)) in
  let s' := fst (resetProgress deckId s w) in
  s' = updateDeck deckId fresh_deck s /\
  fst (resetProgress deckId s' (snd (resetProgress deckId s w))) = s'.
Proof.
  intros Hw. cbv zeta.
  assert (Hreset : forall s0 w0, clock_frozen now w0 ->
    fst (resetProgress deckId s0 w0) =
    updateDeck deckId (fun d =>
      DeckT.mk (DeckT.id d) (DeckT.name d) (DeckT.description d)
        (List.map (fun c => new_card (CardT.id c) (CardT.term c) (CardT.definition c) now)
                  (DeckT.cards d))) s0).
  { intros s0 w0 Hw0. unfold resetProgress. apply (updateDeckE_frozen _ _ _ now).
    - intros d. apply keeps_bind; [|intros; apply keeps_ret].
      apply keeps_mapM. intros c. apply keeps_bind; [apply keeps_nowMs | intros; apply keeps_ret].
    - intros d w' Hw'. rewrite bind_run. cbn [ret fst].
      rewrite (reset_cards_frozen now _ w' Hw'). reflexivity.
    - exact Hw0. }
  assert (Hk : keeps_oracles (resetProgress deckId s)).
  { unfold resetProgress, updateDeckE. apply keeps_bind; [|intros; apply keeps_ret].
    apply keeps_mapM. intros d. destruct (String.eqb (DeckT.id d) deckId); [|apply keeps_ret].
    apply keeps_bind; [|intros; apply keeps_ret].
    apply keeps_mapM. intros c. apply keeps_bind; [apply keeps_nowMs | intros; apply keeps_ret]. }
  split; [apply Hreset; exact Hw|].
  rewrite Hreset by (apply frozen_after; assumption).
  rewrite (Hreset s w Hw). unfold updateDeck. cbn [decks selectedDeckId]. f_equal.
  rewrite List.map_map. apply map_ext. intros d.
  destruct (String.eqb (DeckT.id d) deckId) eqn:E; cbn [DeckT.id]; rewrite E; [|reflexivity].
  cbn [DeckT.name DeckT.description DeckT.cards]. f_equal.
  rewrite List.map_map. reflexivity.
Qed.

Lemma steady_world_frozen now : clock_frozen now (steady_world now).
Proof. intros k. reflexivity. Qed.

Lemma resetProgress_restores_defaults_witness :
  DeckT.cards <$> decks (fst (resetProgress "d1" (state demo_app) (steady_world 1000))) =
  [[card_at "a" 1000; card_at "b" 1000; card_at "c" 1000; card_at "d" 1000; card_at "e" 1000]].
Proof.
  destruct (resetProgress_restores_defaults "d1" 1000 (state demo_app) (steady_world 1000)
              (steady_world_frozen 1000)) as [H _].
  rewrite H. reflexivity.
Defined.

Lemma filterM_length {A} (f : A -> Eff bool) (l : list A) : forall w,
  (List.length (fst (filterM f l w)) <= List.length l)%nat.
Proof.
  induction l as [|x l IH]; intros w; [reflexivity|].
  cbn [filterM]. rewrite !bind_run. cbn [ret fst].
  match goal with |- context [filterM f l ?w'] => specialize (IH w') end.
  destruct (fst (f x w)); cbn [List.length]; lia.
Qed.

Lemma filterM_frozen {A} (f : A -> Eff bool) (g : A -> bool) now (l : list A) :
  (forall x, keeps_oracles (f x)) ->
  (forall x w, clock_frozen now w -> fst (f x w) = g x) ->
  forall w, clock_frozen now w -> fst (filterM f l w) = List.filter g l.
Proof.
  intros Hk Hf. induction l as [|x l IH]; intros w Hw; [reflexivity|].
  cbn [filterM List.filter]. rewrite !bind_run. cbn [ret fst].
  rewrite (Hf x w Hw), IH; [reflexivity|]. apply frozen_after; [apply Hk | exact Hw].
Qed.

Lemma filter_length_le {A} (f : A -> bool) (l : list A) :
  (List.length (List.filter f l) <= List.length l)%nat.
Proof. induction l as [|x l IH]; cbn; [lia|]. destruct (f x); cbn; lia. Qed.

(** X17.  The statistics of a deck: without a deck all three counts are
    0; otherwise [total] is the number of cards, [due] and [mastered]
    are at most [total], a mastered card has [reps >= 5] and
    [interval >= 14], and while the clock stands at [now] the count
    [due] is the length of the due part that [startLearn] would build at
    [now]. *)
Theorem stats_counts (sel : option DeckT.t) (w : World) :
  let st := fst (stats sel w) in
  (sel = None -> st = Stats.mk 0 0 0) /\
  (forall deck, sel = Some deck ->
     Stats.total st = List.length (DeckT.cards deck) /\
     (Stats.due st <= Stats.total st)%nat /\
     (Stats.mastered st <= Stats.total st)%nat /\
     Stats.mastered st = List.length (List.filter is_mastered (DeckT.cards deck)) /\
     (forall c, is_mastered c = true <-> 5 <= CardT.reps c /\ 14 <= CardT.interval c) /\
     (forall now, clock_frozen now w ->
        Stats.due st = List.length (fst (partition (DeckT.cards deck) now)))).
Proof.
  cbv zeta. split; [intros ->; reflexivity|].
  intros deck ->. unfold stats. rewrite bind_run. cbn [ret fst Stats.total Stats.due Stats.mastered].
  split; [reflexivity|]. split; [apply filterM_length|].
  split; [apply filter_length_le|]. split; [reflexivity|]. split.
  - intros c. unfold is_mastered. rewrite andb_true_iff, !Qle_bool_iff. reflexivity.
  - intros now Hw. cbn [partition fst]. f_equal.
    apply (filterM_frozen _ (is_due now) now); [| |exact Hw].
    + intros c. apply keeps_bind; [apply keeps_nowMs | intros; apply keeps_ret].
    + intros c w' Hw'. rewrite bind_run. cbn [ret fst].
      rewrite (frozen_nowMs now w' Hw'). reflexivity.
Qed.

Lemma find_map_same {A} (p : A -> bool) (f : A -> A) (l : list A) :
  (forall x, p (f x) = p x) -> List.find p (List.map f l) = f <$> List.find p l.
Proof.
  intros Hp. induction l as [|x l IH]; [reflexivity|].
  cbn. rewrite Hp. destruct (p x); [reflexivity | exact IH].
Qed.

(** An update that keeps the deck identifiers acts on the selected deck
    as it acts on the decks. *)
Lemma selectedDeck_updateDeck (deckId : string) (u : DeckT.t -> DeckT.t) (s : AppState) :
  (forall d, DeckT.id (u d) = DeckT.id d) ->
  selectedDeck (updateDeck deckId u s) =
  (fun d => if String.eqb (DeckT.id d) deckId then u d else d) <$> selectedDeck s.
Proof.
  intros Hid. unfold selectedDeck, updateDeck. cbn [decks selectedDeckId].
  rewrite find_map_same.
  - destruct (List.find _ (decks s)); [reflexivity|].
    destruct (decks s); reflexivity.
  - intros d. destruct (String.eqb (DeckT.id d) deckId); [rewrite Hid|]; reflexivity.
Qed.

(** X18.  After [resetProgress] of the selected deck, with the clock at
    [now], the statistics of the selected deck read: every card due,
    none mastered. *)
Theorem stats_after_reset (now : number) (s : AppState) (deck : DeckT.t) (w : World) :
  clock_frozen now w ->
  selectedDeck s = Some deck ->
  let r := resetProgress (DeckT.id deck) s w in
  fst (stats (selectedDeck (fst r)) (snd r)) =
  Stats.mk (List.length (DeckT.cards deck)) (List.length (DeckT.cards deck)) 0.
Proof.
  intros Hw Hsel. cbv zeta.
  set (u := fun d : DeckT.t =>
    DeckT.mk (DeckT.id d) (DeckT.name d) (DeckT.description d)
      (List.map (fun c => new_card (CardT.id c) (CardT.term c) (CardT.definition c) now)
                (DeckT.cards d))).
  assert (Hk : keeps_oracles (resetProgress (DeckT.id deck) s)).
  { unfold resetProgress, updateDeckE. apply keeps_bind; [|intros; apply keeps_ret].
    apply keeps_mapM. intros d. destruct (String.eqb (DeckT.id d) (DeckT.id deck));
      [|apply keeps_ret].
    apply keeps_bind; [|intros; apply keeps_ret].
    apply keeps_mapM. intros c. apply keeps_bind; [apply keeps_nowMs | intros; apply keeps_ret]. }
  assert (Hreset : fst (resetProgress (DeckT.id deck) s w) = updateDeck (DeckT.id deck) u s).
  { unfold resetProgress. apply (updateDeckE_frozen _ _ _ now); [| |exact Hw].
    - intros d. apply keeps_bind; [|intros; apply keeps_ret].
      apply keeps_mapM. intros c. apply keeps_bind; [apply keeps_nowMs | intros; apply keeps_ret].
    - intros d w' Hw'. rewrite bind_run. cbn [ret fst].
      rewrite (reset_cards_frozen now _ w' Hw'). reflexivity. }
  rewrite Hreset, selectedDeck_updateDeck by reflexivity. rewrite Hsel.
  cbn [fmap option_fmap option_map]. rewrite String.eqb_refl.
  pose proof (frozen_after _ now w Hk Hw) as Hw'.
  unfold stats. rewrite bind_run. cbn [ret fst]. unfold u at 1 2 3. cbn [DeckT.cards].
  rewrite (filterM_frozen _ (is_due now) now _) ; [| | |exact Hw'].
  - f_equal.
    + apply length_map.
    + rewrite filter_all; [apply length_map|].
      intros c Hc. apply list_elem_of_In, in_map_iff in Hc as (c0 & <- & _).
      apply is_due_iff. cbn. lra.
    + rewrite filter_none; [reflexivity|].
      intros c Hc. apply in_map_iff in Hc as (c0 & <- & _). reflexivity.
  - intros c. apply keeps_bind; [apply keeps_nowMs | intros; apply keeps_ret].
  - intros c w0 Hw0. rewrite bind_run. cbn [ret fst].
    rewrite (frozen_nowMs now w0 Hw0). reflexivity.
Qed.

Lemma stats_after_reset_witness :
  fst (stats (selectedDeck (fst (resetProgress "d1" (state demo_app) (steady_world 1000))))
         (snd (resetProgress "d1" (state demo_app) (steady_world 1000)))) = Stats.mk 5 5 0.
Proof.
  exact (stats_after_reset 1000 (state demo_app) demo_deck (steady_world 1000)
           (steady_world_frozen 1000) eq_refl).
Defined.

(** ** There is always a deck *)

Lemma updateDeckE_length (deckId : string) (updater : DeckT.t -> Eff DeckT.t) s w :
  List.length (decks (fst (updateDeckE deckId updater s w))) = List.length (decks s).
Proof. unfold updateDeckE. rewrite bind_run. cbn [ret fst decks]. apply mapM_length. Qed.

Lemma state_step_keeps_a_deck toString16 (op : StateOp) (s : AppState) (w : World) :
  decks s <> [] -> decks (fst (state_step toString16 op s w)) <> [].
Proof.
  intros Hne.
  assert (Hlen : forall l : list DeckT.t, List.length l = List.length (decks s) -> l <> []).
  { intros l Hl ->. destruct (decks s); [congruence | discriminate]. }
  destruct op; cbn [state_step].
  - unfold addDeck. rewrite bind_run. discriminate.
  - unfold deleteDeck.
    destruct (List.filter _ (decks s)) as [|first rest]; [|discriminate].
    destruct (defaultData_shape toString16 w) as (d0 & i1 & i2 & i3 & t1 & t2 & t3 & ->).
    discriminate.
  - apply Hlen. unfold addCard. apply updateDeckE_length.
  - apply Hlen. cbn. apply length_map.
  - apply Hlen. cbn. apply length_map.
  - apply Hlen. unfold resetProgress. apply updateDeckE_length.
Qed.

(** X19.  A state that has a deck still has one after any sequence of
    deck and card actions (adding and deleting decks, adding, editing
    and deleting cards, resetting progress), and a deck is selected. *)
Theorem state_run_keeps_a_deck toString16 (ops : list StateOp) (s : AppState) (w : World) :
  decks s <> [] ->
  let s' := fst (state_run toString16 ops s w) in
  decks s' <> [] /\ exists deck, selectedDeck s' = Some deck /\ deck ∈ decks s'.
Proof.
  intros Hne. cbv zeta.
  assert (H : decks (fst (state_run toString16 ops s w)) <> []).
  { revert s w Hne. induction ops as [|op ops IH]; intros s w Hne; [exact Hne|].
    cbn [state_run]. rewrite bind_run. apply IH. apply state_step_keeps_a_deck. exact Hne. }
  split; [exact H|].
  set (s' := fst (state_run toString16 ops s w)) in *.
  unfold selectedDeck. destruct (List.find _ (decks s')) as [d|] eqn:Hf.
  - exists d. split; [reflexivity|]. apply find_some in Hf as [Hin _].
    apply list_elem_of_In. exact Hin.
  - destruct (decks s') as [|d l]; [congruence|]. exists d. split; [reflexivity | left].
Qed.

Lemma state_run_keeps_a_deck_witness :
  decks (fst (state_run demo_hex [DeleteDeck "d1"; AddCard "d1" "t" "d"; AddDeck]
                (state demo_app) demo_world)) <> [].
Proof.
  apply (state_run_keeps_a_deck demo_hex [DeleteDeck "d1"; AddCard "d1" "t" "d"; AddDeck]
           (state demo_app) demo_world).
  discriminate.
Defined.

(** ** A Learn session, click after click *)

Lemma gradeLearn_cases (g : number) (app : App) (w : World) :
  (gradeLearn g app w = (app, w) /\
   (selectedDeck (state app) = None \/ learnSession app = None \/
    exists ls, learnSession app = Some ls /\
               LearnSession.queue ls !! LearnSession.idx ls = None)) \/
  exists deck ls card,
    selectedDeck (state app) = Some deck /\ learnSession app = Some ls /\
    LearnSession.queue ls !! LearnSession.idx ls = Some card /\
    gradeLearn g app w =
    ({| state := updateCard (DeckT.id deck) (CardT.id card)
                   (Patch.of_card (fst (scheduleNext card g w))) (state app);
        learnSession :=
          Some (LearnSession.mk (LearnSession.startedAt ls) (LearnSession.queue ls)
                  (LearnSession.idx ls + 1) false
                  (LearnSession.graded ls + 1) (LearnSession.total ls)) |},
     snd (scheduleNext card g w)).
Proof.
  unfold gradeLearn.
  destruct (selectedDeck (state app)) as [deck|] eqn:Hd; [|left; auto].
  destruct (learnSession app) as [ls|] eqn:Hs; [|left; auto].
  destruct (LearnSession.queue ls !! LearnSession.idx ls) as [card|] eqn:Hc.
  - right. exists deck, ls, card. rewrite bind_run. auto.
  - left. split; [reflexivity|]. right. right. exists ls. auto.
Qed.

Lemma selectedDeck_nonempty (s : AppState) : decks s <> [] -> selectedDeck s <> None.
Proof.
  intros Hne. unfold selectedDeck. destruct (List.find _ (decks s)); [discriminate|].
  destruct (decks s); [congruence | discriminate].
Qed.

Lemma scheduleNext_id (c : CardT.t) (g : number) (w : World) :
  CardT.id (fst (scheduleNext c g w)) = CardT.id c.
Proof. rewrite scheduleNext_card. cbv zeta. destruct (g === 0); reflexivity. Qed.

(** Writing back a card under its own identifier keeps the identifiers. *)
Lemma card_ids_updateCard (deckId : string) (u : CardT.t) (s : AppState) :
  card_ids (updateCard deckId (CardT.id u) (Patch.of_card u) s) = card_ids s.
Proof.
  unfold card_ids, updateCard, updateDeck. cbn [decks]. rewrite List.map_map.
  apply map_ext. intros d. destruct (String.eqb (DeckT.id d) deckId); [|reflexivity].
  cbn [DeckT.id DeckT.cards]. f_equal. rewrite List.map_map. apply map_ext. intros c.
  destruct (String.eqb (CardT.id c) (CardT.id u)) eqn:E; [|reflexivity].
  rewrite spread_of_card. apply String.eqb_eq in E. congruence.
Qed.

Lemma card_ids_nonempty (s s' : AppState) :
  card_ids s' = card_ids s -> decks s <> [] -> decks s' <> [].
Proof.
  unfold card_ids. intros H Hne Hnil. rewrite Hnil in H.
  destruct (decks s); [congruence | discriminate].
Qed.

Lemma learn_run_counts (ops : list LearnOp) : forall (app : App) (w : World) ls,
  learnSession app = Some ls ->
  decks (state app) <> [] ->
  (LearnSession.idx ls <= List.length (LearnSession.queue ls))%nat ->
  exists ls',
    learnSession (fst (learn_run ops app w)) = Some ls' /\
    LearnSession.queue ls' = LearnSession.queue ls /\
    LearnSession.startedAt ls' = LearnSession.startedAt ls /\
    LearnSession.total ls' = LearnSession.total ls /\
    LearnSession.idx ls' =
      Nat.min (LearnSession.idx ls + grade_clicks ops) (List.length (LearnSession.queue ls)) /\
    LearnSession.graded ls' =
      (LearnSession.graded ls + (LearnSession.idx ls' - LearnSession.idx ls))%nat /\
    card_ids (state (fst (learn_run ops app w))) = card_ids (state app).
Proof.
  induction ops as [|op ops IH]; intros app w ls Hs Hne Hidx.
  - exists ls. cbn. repeat split; try assumption || reflexivity; lia.
  - cbn [learn_run]. rewrite bind_run. destruct op as [|g]; cbn [learn_step].
    + cbn [ret fst snd].
      destruct (IH (reveal app) w
                  (LearnSession.mk (LearnSession.startedAt ls) (LearnSession.queue ls)
                     (LearnSession.idx ls) true (LearnSession.graded ls)
                     (LearnSession.total ls)))
        as (ls' & H1 & H2 & H3 & H4 & H5 & H6 & H7).
      * unfold reveal. cbn. rewrite Hs. reflexivity.
      * exact Hne.
      * exact Hidx.
      * exists ls'. cbn in *. unfold grade_clicks in *. cbn [List.filter].
        repeat split; assumption.
    + destruct (gradeLearn_cases g app w) as [[Hrun Hwhy]|(deck & ls0 & card & Hd & Hs0 & Hc & Hrun)].
      * rewrite Hrun. cbn [fst snd].
        assert (Hfull : LearnSession.idx ls = List.length (LearnSession.queue ls)).
        { destruct Hwhy as [Hno|[Hno|(ls0 & Hs0 & Hc)]].
          - exfalso. exact (selectedDeck_nonempty _ Hne Hno).
          - congruence.
          - assert (ls0 = ls) by congruence. subst ls0.
            apply lookup_ge_None in Hc. lia. }
        destruct (IH app w ls Hs Hne Hidx) as (ls' & H1 & H2 & H3 & H4 & H5 & H6 & H7).
        exists ls'. unfold grade_clicks in *. cbn [List.filter List.length].
        repeat split; try assumption. lia.
      * assert (ls0 = ls) by congruence. subst ls0.
        rewrite Hrun. cbn [fst snd].
        pose proof (lookup_lt_Some _ _ _ Hc) as Hlt.
        set (app1 := {| state := updateCard (DeckT.id deck) (CardT.id card)
                                   (Patch.of_card (fst (scheduleNext card g w))) (state app);
                        learnSession := Some (LearnSession.mk (LearnSession.startedAt ls)
                                   (LearnSession.queue ls) (LearnSession.idx ls + 1) false
                                   (LearnSession.graded ls + 1) (LearnSession.total ls)) |}).
        assert (Hids : card_ids (state app1) = card_ids (state app)).
        { unfold app1. cbn [state]. rewrite <- (scheduleNext_id card g w).
          apply card_ids_updateCard. }
        destruct (IH app1 (snd (scheduleNext card g w))
                    (LearnSession.mk (LearnSession.startedAt ls) (LearnSession.queue ls)
                       (LearnSession.idx ls + 1) false (LearnSession.graded ls + 1)
                       (LearnSession.total ls)))
          as (ls' & H1 & H2 & H3 & H4 & H5 & H6 & H7).
        -- reflexivity.
        -- apply (card_ids_nonempty (state app)); assumption.
        -- cbn. lia.
        -- exists ls'. cbn in *. unfold grade_clicks in *. cbn [List.filter List.length].
           repeat split; try assumption; try congruence; lia.
Qed.

(** X20.  In a session opened by [startLearn], after any sequence of
    reveal and grade clicks the position and the graded count both are
    the number of grade clicks, capped at the total of the session: grade
    clicks past the last card do nothing.  The queue, the total and the
    start time stay as they were, and in every deck the cards keep
    their identifiers and their order. *)
Theorem learn_session_progress (ops : list LearnOp) (app : App) (deck : DeckT.t) (w : World) :
  selectedDeck (state app) = Some deck ->
  let opened := startLearn app w in
  let app' := fst (learn_run ops (fst opened) (snd opened)) in
  exists ls ls',
    learnSession (fst opened) = Some ls /\ learnSession app' = Some ls' /\
    LearnSession.total ls = Nat.min 50 (List.length (DeckT.cards deck)) /\
    LearnSession.queue ls' = LearnSession.queue ls /\
    LearnSession.startedAt ls' = LearnSession.startedAt ls /\
    LearnSession.total ls' = LearnSession.total ls /\
    LearnSession.idx ls' = Nat.min (grade_clicks ops) (LearnSession.total ls) /\
    LearnSession.graded ls' = LearnSession.idx ls' /\
    card_ids (state app') = card_ids (state app).
Proof.
  intros Hdeck. cbv zeta.
  assert (Hopen : exists queue,
    fst (startLearn app w) =
      {| state := state app;
         learnSession := Some (LearnSession.mk (clock w (clock_reads w)) queue 0 false 0
                                 (List.length queue)) |} /\
    List.length queue = Nat.min 50 (List.length (DeckT.cards deck))).
  { unfold startLearn. rewrite Hdeck, !bind_run. eexists. split; [reflexivity|].
    rewrite length_take, List.length_app.
    rewrite !(Permutation_length (shuffleArray_perm _ _)).
    rewrite <- List.length_app.
    rewrite (Permutation_length (filter_split_perm (is_due _) (is_not_due _) _
                                   (fun x => eq_refl))).
    reflexivity. }
  destruct Hopen as (queue & Hopen & Hlen).
  assert (Hne : decks (state (fst (startLearn app w))) <> []).
  { rewrite Hopen. cbn [state]. intros Hnil. unfold selectedDeck in Hdeck.
    rewrite Hnil in Hdeck. discriminate. }
  destruct (learn_run_counts ops (fst (startLearn app w)) (snd (startLearn app w))
              (LearnSession.mk (clock w (clock_reads w)) queue 0 false 0 (List.length queue)))
    as (ls' & H1 & H2 & H3 & H4 & H5 & H6 & H7).
  - rewrite Hopen. reflexivity.
  - exact Hne.
  - cbn. lia.
  - eexists. exists ls'. split; [rewrite Hopen; reflexivity|].
    cbn [LearnSession.idx LearnSession.queue LearnSession.startedAt LearnSession.total
         LearnSession.graded] in *.
    assert (Hst : state (fst (startLearn app w)) = state app) by (rewrite Hopen; reflexivity).
    rewrite Hst in H7.
    repeat split; try assumption; lia.
Qed.

Lemma learn_session_progress_witness :
  LearnSession.idx <$>
    learnSession (fst (learn_run [ClickGrade Good; ClickReveal; ClickGrade Again]
                         (fst (startLearn demo_app demo_world))
                         (snd (startLearn demo_app demo_world)))) = Some 2%nat.
Proof.
  destruct (learn_session_progress [ClickGrade Good; ClickReveal; ClickGrade Again]
              demo_app demo_deck demo_world eq_refl)
    as (ls & ls' & _ & -> & Ht & _ & _ & _ & Hi & _).
  cbn [fmap option_fmap option_map]. rewrite Hi, Ht. reflexivity.
Defined.

(** ** A test, click after click *)

Lemma at_Z_Some {T} (a : list T) (i : Z) (x : T) :
  at_Z a i = Some x -> (0 <= i)%Z /\ a !! Z.to_nat i = Some x.
Proof. unfold at_Z. destruct (Z.ltb_spec i 0); [discriminate|]. auto. Qed.

Lemma imap_at_index {T} (g : T -> T) (l : list T) (i : Z) (x : T) :
  (0 <= i)%Z -> l !! Z.to_nat i = Some x ->
  imap (fun j y => if (Z.of_nat j =? i)%Z then g y else y) l = <[Z.to_nat i := g x]> l.
Proof.
  intros Hi Hx. apply list_eq. intros j. rewrite list_lookup_imap.
  destruct (decide (j = Z.to_nat i)) as [->|Hne].
  - rewrite Hx, Z2Nat.id, Z.eqb_refl by assumption. cbn.
    symmetry. apply list_lookup_insert_eq. eapply lookup_lt_Some; eassumption.
  - rewrite list_lookup_insert_ne by congruence.
    destruct (l !! j); [|reflexivity]. cbn.
    destruct (Z.eqb_spec (Z.of_nat j) i); [lia | reflexivity].
Qed.

(** What [pickOption] does to an open session. *)
Lemma pickOption_cases (opt : string) (t : TestSession.t) :
  (pickOption opt (Some t) = Some t /\
   forall q, at_Z (TestSession.questions t) (TestSession.idx t) = Some q ->
             TestQuestion.picked q <> None) \/
  exists q,
    (0 <= TestSession.idx t)%Z /\
    TestSession.questions t !! Z.to_nat (TestSession.idx t) = Some q /\
    TestQuestion.picked q = None /\
    pickOption opt (Some t) =
    Some (TestSession.mk (TestSession.idx t)
            (<[Z.to_nat (TestSession.idx t) := answered_with opt q]> (TestSession.questions t))
            (TestSession.startedAt t) (TestSession.finished t)).
Proof.
  unfold pickOption.
  destruct (at_Z (TestSession.questions t) (TestSession.idx t)) as [q|] eqn:Hq.
  - destruct (TestQuestion.picked q) eqn:Hp.
    + left. split; [reflexivity|]. intros q' [= <-]. congruence.
    + right. exists q. apply at_Z_Some in Hq. destruct Hq as [Hi Hq].
      repeat split; try assumption.
      cbv zeta. do 2 f_equal.
      exact (imap_at_index
               (fun qq => TestQuestion.mk (TestQuestion.id qq) (TestQuestion.cardId qq)
                            (TestQuestion.prompt qq) (TestQuestion.correct qq)
                            (TestQuestion.options qq) (Some opt)
                            (Some (String.eqb opt (TestQuestion.correct q))))
               (TestSession.questions t) (TestSession.idx t) q Hi Hq).
  - left. split; [reflexivity|]. discriminate.
Qed.

Lemma question_step_refl (q : TestQuestion.t) : question_step q q.
Proof. unfold question_step, same_question. intuition. Qed.

Lemma question_step_trans (q1 q2 q3 : TestQuestion.t) :
  question_step q1 q2 -> question_step q2 q3 -> question_step q1 q3.
Proof.
  unfold question_step, same_question.
  intros [(A1 & A2 & A3 & A4 & A5) A6] [(B1 & B2 & B3 & B4 & B5) B6].
  split; [repeat split; congruence|].
  intros Hp. specialize (A6 Hp). subst q2. auto.
Qed.

Lemma Forall2_question_step_refl (l : list TestQuestion.t) : Forall2 question_step l l.
Proof. induction l; constructor; auto using question_step_refl. Qed.

Lemma Forall2_question_step_trans (l1 l2 l3 : list TestQuestion.t) :
  Forall2 question_step l1 l2 -> Forall2 question_step l2 l3 ->
  Forall2 question_step l1 l3.
Proof.
  intros H. revert l3. induction H; intros l3 H3; inversion H3; subst; constructor;
    eauto using question_step_trans.
Qed.

Lemma answered_with_ok (opt : string) (q : TestQuestion.t) : answer_ok (answered_with opt q).
Proof. reflexivity. Qed.

(** The score counts the questions answered correctly. *)
Lemma testScore_Some (t : TestSession.t) :
  testScore (Some t) =
  (List.length (List.filter is_correct (TestSession.questions t)),
   List.length (TestSession.questions t)).
Proof. reflexivity. Qed.

Lemma correct_is_answered (q : TestQuestion.t) :
  answer_ok q -> is_correct q = true -> TestQuestion.picked q <> None.
Proof.
  unfold answer_ok, is_correct.
  destruct (TestQuestion.picked q), (TestQuestion.isCorrect q); intros; try congruence;
    contradiction.
Qed.

Lemma score_grows (l l' : list TestQuestion.t) :
  Forall answer_ok l -> Forall2 question_step l l' ->
  (List.length (List.filter is_correct l) <= List.length (List.filter is_correct l'))%nat.
Proof.
  intros Hok H. induction H as [|q q' l l' [_ Hq] _ IH]; [reflexivity|].
  inversion Hok as [|? ? Hokq Hokl]; subst. specialize (IH Hokl). cbn [List.filter].
  destruct (is_correct q) eqn:E.
  - rewrite (Hq (correct_is_answered q Hokq E)), E. cbn. lia.
  - destruct (is_correct q'); cbn; lia.
Qed.

(** One click on an open test. *)
Lemma test_step_invariant (op : TestOp) (t : TestSession.t) :
  idx_in_range t -> Forall answer_ok (TestSession.questions t) ->
  exists t',
    test_step op (Some t) = Some t' /\
    TestSession.startedAt t' = TestSession.startedAt t /\
    idx_in_range t' /\
    Forall2 question_step (TestSession.questions t) (TestSession.questions t') /\
    Forall answer_ok (TestSession.questions t').
Proof.
  unfold idx_in_range. intros Hr Hok. destruct op as [opt| |]; cbn [test_step].
  - destruct (pickOption_cases opt t) as [[-> _]|(q & Hi & Hq & Hp & ->)].
    + exists t. auto using Forall2_question_step_refl.
    + eexists. split; [reflexivity|]. cbn.
      rewrite length_insert. repeat split; try lia.
      * apply Forall2_same_length_lookup. split; [now rewrite length_insert|].
        intros i x y Hx Hy.
        destruct (decide (i = Z.to_nat (TestSession.idx t))) as [->|Hne].
        -- rewrite list_lookup_insert_eq in Hy by (eapply lookup_lt_Some; eassumption).
           assert (x = q) by congruence. injection Hy as <-. subst x.
           split; [repeat split|]. intros Hno. contradiction.
        -- rewrite list_lookup_insert_ne in Hy by congruence.
           assert (y = x) by congruence. subst y. apply question_step_refl.
      * apply Forall_insert; [assumption | apply answered_with_ok].
  - eexists. split; [reflexivity|]. cbn.
    repeat split; auto using Forall2_question_step_refl.
    + destruct (Z.leb_spec (Z.of_nat (List.length (TestSession.questions t)))
                  (TestSession.idx t + 1)); lia.
    + destruct (Z.leb_spec (Z.of_nat (List.length (TestSession.questions t)))
                  (TestSession.idx t + 1)); lia.
  - eexists. split; [reflexivity|]. cbn.
    repeat split; auto using Forall2_question_step_refl; lia.
Qed.

Lemma test_run_invariant (ops : list TestOp) : forall t : TestSession.t,
  idx_in_range t -> Forall answer_ok (TestSession.questions t) ->
  exists t',
    test_run ops (Some t) = Some t' /\
    TestSession.startedAt t' = TestSession.startedAt t /\
    idx_in_range t' /\
    Forall2 question_step (TestSession.questions t) (TestSession.questions t') /\
    Forall answer_ok (TestSession.questions t').
Proof.
  induction ops as [|op ops IH]; intros t Hr Hok.
  - exists t. auto using Forall2_question_step_refl.
  - destruct (test_step_invariant op t Hr Hok) as (t1 & H1 & H2 & H3 & H4 & H5).
    destruct (IH t1 H3 H5) as (t2 & K1 & K2 & K3 & K4 & K5).
    exists t2. unfold test_run in *. cbn [fold_left]. rewrite H1.
    split; [exact K1|]. split; [congruence|]. split; [exact K3|].
    split; [|exact K5].
    eapply Forall2_question_step_trans; eassumption.
Qed.

(** X21.  A running test, whatever is clicked (options, Next, Prev):
    the session stays open with its start time; the position stays
    inside the questions; every question keeps its identifier, card,
    prompt, correct answer and options; an answer once given is final
    (that question never changes again); every answered question records
    whether its answer equals the correct one; and the score never goes
    down and never exceeds the unchanged total. *)
Theorem test_run_answers_final (ops : list TestOp) (t : TestSession.t) :
  idx_in_range t ->
  Forall answer_ok (TestSession.questions t) ->
  exists t',
    test_run ops (Some t) = Some t' /\
    TestSession.startedAt t' = TestSession.startedAt t /\
    idx_in_range t' /\
    Forall2 question_step (TestSession.questions t) (TestSession.questions t') /\
    Forall answer_ok (TestSession.questions t') /\
    (fst (testScore (Some t)) <= fst (testScore (Some t')) <= snd (testScore (Some t')))%nat /\
    snd (testScore (Some t')) = snd (testScore (Some t)).
Proof.
  intros Hr Hok.
  destruct (test_run_invariant ops t Hr Hok) as (t' & H1 & H2 & H3 & H4 & H5).
  exists t'. rewrite !testScore_Some. cbn [fst snd].
  do 5 (split; [assumption|]). split; [split|].
  - apply score_grows; assumption.
  - apply filter_length_le.
  - symmetry. eapply Forall2_length; eassumption.
Qed.

Lemma test_run_answers_final_witness :
  exists t',
    test_run [Pick "a"; Pick "z"; Next; Pick "z"; Next; Prev; Prev; Prev] (Some demo_test)
      = Some t' /\
    idx_in_range t' /\ testScore (Some t') = (1%nat, 2%nat).
Proof.
  destruct (test_run_answers_final
              [Pick "a"; Pick "z"; Next; Pick "z"; Next; Prev; Prev; Prev] demo_test)
    as (t' & H1 & _ & H3 & _).
  - unfold idx_in_range. cbn. lia.
  - repeat constructor.
  - exists t'. repeat split; try apply H3; try exact H1.
    assert (Some t' = test_run [Pick "a"; Pick "z"; Next; Pick "z"; Next; Prev; Prev; Prev]
                        (Some demo_test)) as E by (symmetry; exact H1).
    vm_compute in E. injection E as ->. reflexivity.
Defined.

Lemma filter_insert_length {T} (P : T -> bool) (l : list T) : forall (i : nat) (x y : T),
  l !! i = Some x ->
  (List.length (List.filter P (<[i:=y]> l)) + (if P x then 1 else 0) =
   List.length (List.filter P l) + (if P y then 1 else 0))%nat.
Proof.
  induction l as [|a l IH]; intros i x y Hx; [discriminate|].
  destruct i as [|i].
  - change (<[0%nat:=y]> (a :: l)) with (y :: l). injection Hx as ->.
    cbn [List.filter]. destruct (P x), (P y); cbn [List.length]; lia.
  - change (<[S i:=y]> (a :: l)) with (a :: <[i:=y]> l).
    change ((a :: l) !! S i) with (l !! i) in Hx.
    specialize (IH i x y Hx). cbn [List.filter]. destruct (P a); cbn [List.length]; lia.
Qed.

(** X22.  Answering the current question of a test: the option is
    recorded with the verdict "it equals the correct answer", the score
    goes up by one exactly when it does, and a second pick on the same
    question, whatever the option, changes nothing. *)
Theorem pickOption_records_answer (opt : string) (t : TestSession.t) (q : TestQuestion.t) :
  at_Z (TestSession.questions t) (TestSession.idx t) = Some q ->
  TestQuestion.picked q = None ->
  TestQuestion.isCorrect q = None ->
  exists t',
    pickOption opt (Some t) = Some t' /\
    at_Z (TestSession.questions t') (TestSession.idx t') = Some (answered_with opt q) /\
    fst (testScore (Some t')) =
      (fst (testScore (Some t)) + (if String.eqb opt (TestQuestion.correct q) then 1 else 0))%nat /\
    forall opt', pickOption opt' (Some t') = Some t'.
Proof.
  intros Hq Hp Hc.
  destruct (pickOption_cases opt t) as [[_ Hno]|(q0 & Hi & Hq0 & _ & Hrun)].
  { exfalso. exact (Hno q Hq Hp). }
  pose proof (at_Z_Some _ _ _ Hq) as [_ Hq'].
  assert (q0 = q) by congruence. subst q0.
  assert (Hcur : at_Z (<[Z.to_nat (TestSession.idx t) := answered_with opt q]>
                         (TestSession.questions t)) (TestSession.idx t)
                 = Some (answered_with opt q)).
  { unfold at_Z. destruct (Z.ltb_spec (TestSession.idx t) 0); [lia|].
    apply list_lookup_insert_eq. eapply lookup_lt_Some; eassumption. }
  eexists. split; [exact Hrun|]. cbn [TestSession.questions TestSession.idx].
  split; [exact Hcur|]. split.
  - rewrite !testScore_Some. cbn [fst TestSession.questions].
    pose proof (filter_insert_length is_correct (TestSession.questions t)
                  (Z.to_nat (TestSession.idx t)) q (answered_with opt q) Hq') as H.
    assert (is_correct q = false) as Hf by (unfold is_correct; now rewrite Hc).
    rewrite Hf in H.
    assert (Hy : is_correct (answered_with opt q) = String.eqb opt (TestQuestion.correct q)).
    { unfold is_correct, answered_with. cbn [TestQuestion.isCorrect].
      destruct (String.eqb opt (TestQuestion.correct q)); reflexivity. }
    rewrite Hy in H. destruct (String.eqb opt (TestQuestion.correct q)); lia.
  - intros opt'. unfold pickOption. cbn [TestSession.questions TestSession.idx].
    rewrite Hcur. reflexivity.
Qed.

Lemma pickOption_records_answer_witness :
  exists t',
    pickOption "a" (Some demo_test) = Some t' /\
    fst (testScore (Some t')) = 1%nat /\
    pickOption "b" (Some t') = Some t'.
Proof.
  destruct (pickOption_records_answer "a" demo_test (demo_question "q1" "a")
              eq_refl eq_refl eq_refl) as (t' & H1 & _ & Hs & Hagain).
  exists t'. split; [exact H1|]. split; [exact Hs | apply Hagain].
Defined.

(** ** Building a test *)

Lemma take_submseteq {T} (n : nat) (l : list T) : take n l ⊆+ l.
Proof. apply sublist_submseteq, sublist_take. Qed.

Lemma filter_singleton_others (cardId : string) (cards : list CardT.t) :
  List.filter (fun x => negb (bool_decide (CardT.id x ∈ ({[ cardId ]} : gset string)))) cards
  = others cardId cards.
Proof.
  unfold others. apply List.filter_ext. intros d. f_equal.
  destruct (String.eqb_spec (CardT.id d) cardId) as [E|E].
  - apply bool_decide_eq_true. set_solver.
  - apply bool_decide_eq_false. set_solver.
Qed.

Lemma pickN_spec {T} (id : T -> string) (arr : list T) (n : nat) (excludeIds : gset string)
    (w : World) :
  fst (pickN id arr n excludeIds w)
    ⊆+ List.filter (fun x => negb (bool_decide (id x ∈ excludeIds))) arr /\
  List.length (fst (pickN id arr n excludeIds w)) =
    Nat.min n (List.length (List.filter (fun x => negb (bool_decide (id x ∈ excludeIds))) arr)).
Proof.
  unfold pickN. rewrite bind_run. cbn [ret fst].
  set (pool := List.filter _ arr).
  pose proof (shuffleArray_perm pool w) as Hperm. split.
  - transitivity (fst (shuffleArray pool w));
      [apply take_submseteq | apply Permutation_submseteq, Hperm].
  - rewrite length_take, (Permutation_length Hperm). reflexivity.
Qed.

(** X23.  [pickN] returns [n] elements of the array that are not
    excluded, or all of them when there are fewer: no element more often
    than the array has it, none with an excluded identifier; it draws one
    random number less than there are candidates and never reads the
    clock. *)
Theorem pickN_picks {T} (id : T -> string) (arr : list T) (n : nat) (excludeIds : gset string)
    (w : World) :
  let pool := List.filter (fun x => negb (bool_decide (id x ∈ excludeIds))) arr in
  let picked := fst (pickN id arr n excludeIds w) in
  let w' := snd (pickN id arr n excludeIds w) in
  picked ⊆+ pool /\
  List.length picked = Nat.min n (List.length pool) /\
  (forall x, x ∈ picked -> x ∈ arr /\ id x ∉ excludeIds) /\
  (NoDup arr -> NoDup picked) /\
  entropy_reads w' = (entropy_reads w + (List.length pool - 1))%nat /\
  clock_reads w' = clock_reads w.
Proof.
  cbv zeta. destruct (pickN_spec id arr n excludeIds w) as [Hsub Hlen].
  split; [exact Hsub|]. split; [exact Hlen|].
  unfold pickN in *. rewrite bind_run in *. cbn [ret fst snd] in *.
  set (pool := List.filter _ arr) in *.
  split.
  { intros x Hx. apply (elem_of_submseteq _ _ _ Hx) in Hsub.
    apply list_elem_of_In, List.filter_In in Hsub. destruct Hsub as [Hin Hex].
    split; [now apply list_elem_of_In|].
    apply negb_true_iff, bool_decide_eq_false in Hex. exact Hex. }
  split.
  { intros Hnd. apply (sublist_NoDup _ (fst (shuffleArray pool w))); [|apply sublist_take].
    rewrite (shuffleArray_perm pool w).
    apply NoDup_ListNoDup, List.NoDup_filter, NoDup_ListNoDup, Hnd. }
  unfold shuffleArray.
  destruct (shuffle_loop_clock (List.length pool - 1) pool w) as (_ & Hc & _ & He).
  split; assumption.
Qed.

Lemma to_index_of_nat (n : nat) : to_index (of_nat n) = n.
Proof. unfold to_index, of_nat. rewrite Qfloor_Z. apply Nat2Z.id. Qed.

Lemma to_index_mono (x y : number) : x <= y -> (to_index x <= to_index y)%nat.
Proof. intros H. unfold to_index. pose proof (Qfloor_resp_le x y H). lia. Qed.

Lemma to_index_min (count : number) (n : nat) :
  to_index (Math.min count (of_nat n)) = Nat.min (to_index count) n.
Proof.
  unfold Math.min. destruct (Qlt_le_dec (of_nat n) count) as [H|H].
  - rewrite to_index_of_nat. apply Qlt_le_weak, to_index_mono in H.
    rewrite to_index_of_nat in H. lia.
  - apply to_index_mono in H. rewrite to_index_of_nat in H. lia.
Qed.

Lemma test_count_range (x : number) :
  (1 <= to_index (clamp (or_else x 10) 1 50) <= 50)%nat.
Proof.
  destruct (clamp_range (or_else x 10) 1 50) as [H1 H2]; [lra|].
  apply to_index_mono in H1, H2.
  change (to_index 1) with 1%nat in H1. change (to_index 50) with 50%nat in H2. lia.
Qed.

Section BuildingTests.
Variable toString16 : number -> string.

(** What the callback of [buildTest] makes of a card. *)
Lemma buildTest_question (cfg : TestConfig.t) (allCards : list CardT.t) (c : CardT.t)
    (q : TestQuestion.t) :
  (exists w,
    q = fst ((let! distractFrom := pickN CardT.id allCards 3 {[ CardT.id c ]} in
              let! options := shuffleArray (answer_of (TestConfig.direction cfg) c ::
                                List.map (answer_of (TestConfig.direction cfg)) distractFrom) in
              let! id := uid toString16 in
              ret (TestQuestion.mk id (CardT.id c) (prompt_of (TestConfig.direction cfg) c)
                     (answer_of (TestConfig.direction cfg) c) options None None)) w)) ->
  TestQuestion.cardId q = CardT.id c /\
  TestQuestion.prompt q = prompt_of (TestConfig.direction cfg) c /\
  TestQuestion.correct q = answer_of (TestConfig.direction cfg) c /\
  TestQuestion.picked q = None /\ TestQuestion.isCorrect q = None /\
  exists ds,
    ds ⊆+ others (CardT.id c) allCards /\
    List.length ds = Nat.min 3 (List.length (others (CardT.id c) allCards)) /\
    TestQuestion.options q ≡ₚ
      answer_of (TestConfig.direction cfg) c :: List.map (answer_of (TestConfig.direction cfg)) ds.
Proof.
  intros [w ->]. rewrite !bind_run. cbn [ret fst TestQuestion.cardId TestQuestion.prompt
    TestQuestion.correct TestQuestion.picked TestQuestion.isCorrect TestQuestion.options].
  do 5 (split; [reflexivity|]).
  destruct (pickN_spec CardT.id allCards 3 {[ CardT.id c ]} w) as (Hsub & Hlen).
  rewrite filter_singleton_others in Hsub, Hlen.
  exists (fst (pickN CardT.id allCards 3 {[CardT.id c]} w)).
  split; [exact Hsub|]. split; [exact Hlen|]. apply shuffleArray_perm.
Qed.

Lemma Forall2_map_eq {A B C} (f : A -> C) (g : B -> C) (l : list A) (l' : list B) :
  Forall2 (fun a b => g b = f a) l l' -> List.map g l' = List.map f l.
Proof. induction 1; cbn; congruence. Qed.

Lemma Forall2_exists_r {A B} (P : A -> B -> Prop) (l : list A) (l' : list B) :
  Forall2 P l l' -> Forall (fun b => exists a, a ∈ l /\ P a b) l'.
Proof.
  induction 1 as [|a b l l' H _ IH]; constructor.
  - exists a. split; [left | exact H].
  - eapply Forall_impl; [exact IH|]. intros b' (a' & Hin & HP).
    exists a'. split; [right; exact Hin | exact HP].
Qed.

(** X24.  [buildTest] on a selected deck opens a test at position [0],
    not finished, with [min(count, |pool|)] questions, [count] being the
    configured number brought into [1, 50] ([10] when it is [0]) and the
    pool the deck's cards, or only those due at the time of the call.
    Every question comes from a card of the pool, no card more often
    than the pool has it; it is unanswered; its prompt and correct answer
    are the two sides of the card in the configured direction; and its
    options are the correct answer together with the answer sides of
    [min(3, k)] of the [k] cards of the deck under another identifier, so
    the correct answer is always among at most four options.  The
    session it opens is one on which any run of clicks keeps its
    invariants. *)
Theorem buildTest_session (deck : DeckT.t) (cfg : TestConfig.t)
    (old : option TestSession.t) (w : World) :
  let now := clock w (clock_reads w) in
  let pool := if TestConfig.includeNotDue cfg then DeckT.cards deck
              else List.filter (is_due now) (DeckT.cards deck) in
  let dir := TestConfig.direction cfg in
  exists t,
    fst (buildTest toString16 (Some deck) cfg old w) = Some t /\
    TestSession.idx t = 0%Z /\ TestSession.finished t = false /\
    List.length (TestSession.questions t) =
      Nat.min (to_index (clamp (or_else (TestConfig.count cfg) 10) 1 50)) (List.length pool) /\
    (List.length (TestSession.questions t) <= 50)%nat /\
    List.map TestQuestion.cardId (TestSession.questions t) ⊆+ List.map CardT.id pool /\
    Forall (fun q =>
      (exists c, c ∈ pool /\
         TestQuestion.cardId q = CardT.id c /\
         TestQuestion.prompt q = prompt_of dir c /\
         TestQuestion.correct q = answer_of dir c /\
         exists ds,
           ds ⊆+ others (CardT.id c) (DeckT.cards deck) /\
           List.length ds = Nat.min 3 (List.length (others (CardT.id c) (DeckT.cards deck))) /\
           TestQuestion.options q ≡ₚ answer_of dir c :: List.map (answer_of dir) ds) /\
      TestQuestion.picked q = None /\ TestQuestion.isCorrect q = None /\
      TestQuestion.correct q ∈ TestQuestion.options q /\
      (1 <= List.length (TestQuestion.options q) <= 4)%nat)
      (TestSession.questions t) /\
    idx_in_range t /\ Forall answer_ok (TestSession.questions t).
Proof.
  cbv zeta. unfold buildTest. rewrite !bind_run.
  set (now := fst (nowMs w)). set (w1 := snd (nowMs w)).
  change (clock w (clock_reads w)) with now.
  set (pool := if TestConfig.includeNotDue cfg then DeckT.cards deck
               else List.filter (is_due now) (DeckT.cards deck)).
  set (base := take _ (fst (shuffleArray pool w1))).
  set (f := fun c : CardT.t => _).
  set (questions := fst (mapM f base (snd (shuffleArray pool w1)))).
  cbn [ret fst]. eexists. split; [reflexivity|].
  cbn [TestSession.idx TestSession.finished TestSession.questions].
  assert (Hbase : base ⊆+ pool).
  { unfold base. etransitivity; [apply take_submseteq|].
    apply Permutation_submseteq, shuffleArray_perm. }
  assert (Hlen : List.length questions =
                 Nat.min (to_index (clamp (or_else (TestConfig.count cfg) 10) 1 50))
                   (List.length pool)).
  { unfold questions. rewrite mapM_length. unfold base.
    rewrite length_take, (Permutation_length (shuffleArray_perm pool w1)), to_index_min. lia. }
  pose proof (test_count_range (TestConfig.count cfg)) as Hcount.
  assert (HF : Forall2 (fun c q =>
      TestQuestion.cardId q = CardT.id c /\
      TestQuestion.prompt q = prompt_of (TestConfig.direction cfg) c /\
      TestQuestion.correct q = answer_of (TestConfig.direction cfg) c /\
      TestQuestion.picked q = None /\ TestQuestion.isCorrect q = None /\
      exists ds,
        ds ⊆+ others (CardT.id c) (DeckT.cards deck) /\
        List.length ds = Nat.min 3 (List.length (others (CardT.id c) (DeckT.cards deck))) /\
        TestQuestion.options q ≡ₚ
          answer_of (TestConfig.direction cfg) c ::
          List.map (answer_of (TestConfig.direction cfg)) ds) base questions).
  { unfold questions. apply mapM_Forall2. intros c w0.
    apply buildTest_question. exists w0. reflexivity. }
  split; [reflexivity|]. split; [reflexivity|]. split; [exact Hlen|].
  split; [lia|]. split.
  { rewrite (Forall2_map_eq CardT.id TestQuestion.cardId base questions).
    - apply (fmap_submseteq CardT.id) in Hbase. exact Hbase.
    - eapply Forall2_impl; [exact HF|]. intros c q H. apply H. }
  pose proof (Forall2_exists_r _ _ _ HF) as HE.
  split; [|split].
  - eapply Forall_impl; [exact HE|].
    intros q (c & Hin & P1 & P2 & P3 & P4 & P5 & ds & D1 & D2 & D3).
    split; [|split; [exact P4|split; [exact P5|split]]].
    + exists c. split; [exact (elem_of_submseteq _ _ _ Hin Hbase)|].
      do 3 (split; [assumption|]). exists ds. auto.
    + rewrite D3, P3. left.
    + rewrite (Permutation_length D3). cbn [List.length]. rewrite length_map, D2. lia.
  - unfold idx_in_range. cbn [TestSession.idx TestSession.questions]. lia.
  - eapply Forall_impl; [exact HE|].
    intros q (c & _ & _ & _ & _ & P4 & P5 & _). unfold answer_ok. rewrite P4, P5. exact I.
Qed.

End BuildingTests.

(** ** Flashcards *)

Lemma at_number_whole {T} (a : list T) (x : number) (k : Z) :
  x == inject_Z k -> (0 <= k)%Z -> at_number a x = a !! Z.to_nat k.
Proof.
  intros Hx Hk. unfold at_number. rewrite (Qfloor_comp _ _ Hx), Qfloor_Z.
  assert (E1 : Qeq_bool x (inject_Z k) = true) by (apply Qeq_bool_iff; exact Hx).
  assert (E2 : Qle_bool 0 x = true).
  { apply Qle_bool_iff. rewrite Hx. change 0 with (inject_Z 0). rewrite <- Zle_Qle. exact Hk. }
  rewrite E1, E2. reflexivity.
Qed.

Lemma inject_Z_pred (n : Z) : inject_Z (n - 1) == inject_Z n - 1.
Proof.
  unfold Z.sub, Qminus. rewrite inject_Z_plus, inject_Z_opp. reflexivity.
Qed.

Lemma inject_Z_succ (n : Z) : inject_Z (n + 1) == inject_Z n + 1.
Proof. rewrite inject_Z_plus. reflexivity. Qed.

(** The index [currentFc] reads at, for a whole-number [fcIndex]. *)
Lemma clamp_index (n z : Z) :
  (1 <= n)%Z ->
  clamp (inject_Z z) 0 (Math.max 0 (inject_Z n - 1))
  == inject_Z (Z.max 0 (Z.min (n - 1) z)).
Proof.
  intros Hn.
  assert (Qn : 1 <= inject_Z n) by (change 1 with (inject_Z 1); rewrite <- Zle_Qle; exact Hn).
  destruct (Z_lt_le_dec z 0) as [H0|H0]; [|destruct (Z_lt_le_dec (n - 1) z) as [H1|H1]].
  - replace (Z.max 0 (Z.min (n - 1) z)) with 0%Z by lia.
    rewrite Zlt_Qlt in H0. change (inject_Z 0) with 0 in *. case_minmax; lra.
  - replace (Z.max 0 (Z.min (n - 1) z)) with (n - 1)%Z by lia.
    rewrite Zlt_Qlt, inject_Z_pred in H1. rewrite inject_Z_pred. case_minmax; lra.
  - replace (Z.max 0 (Z.min (n - 1) z)) with z by lia.
    rewrite Zle_Qle in H0, H1. rewrite inject_Z_pred in H1.
    change (inject_Z 0) with 0 in *. case_minmax; lra.
Qed.

(** X25.  Flashcards: with at least one card and a whole-number index,
    [currentFc] is always a card, the one at the index brought into the
    list (the first card for a negative index, the last for one past the
    end); and from an index inside the list the Prev and Next buttons
    lead to an index inside the list, one step away or the same at the
    two ends. *)
Theorem flashcard_navigation {T} (fcCards : list T) (z : Z) :
  fcCards <> [] ->
  let n := Z.of_nat (List.length fcCards) in
  currentFc fcCards (inject_Z z) = fcCards !! Z.to_nat (Z.max 0 (Z.min (n - 1) z)) /\
  is_Some (currentFc fcCards (inject_Z z)) /\
  fcPrev (inject_Z z) == inject_Z (Z.max 0 (z - 1)) /\
  fcNext fcCards (inject_Z z) == inject_Z (Z.min (n - 1) (z + 1)) /\
  ((0 <= z < n)%Z ->
   (0 <= Z.max 0 (z - 1) < n)%Z /\ (0 <= Z.min (n - 1) (z + 1) < n)%Z /\
   currentFc fcCards (inject_Z z) = fcCards !! Z.to_nat z).
Proof.
  intros Hne. cbv zeta.
  assert (Hn : (1 <= Z.of_nat (List.length fcCards))%Z).
  { destruct fcCards; [congruence | cbn [List.length]; lia]. }
  assert (Hcur : currentFc fcCards (inject_Z z) =
                 fcCards !! Z.to_nat (Z.max 0 (Z.min (Z.of_nat (List.length fcCards) - 1) z))).
  { unfold currentFc, of_nat. apply at_number_whole; [apply clamp_index; exact Hn | lia]. }
  split; [exact Hcur|]. split; [|split; [|split]].
  - rewrite Hcur. apply lookup_lt_is_Some. lia.
  - unfold fcPrev.
    destruct (Z.max_spec 0 (z - 1)) as [[H ->]|[H ->]].
    + rewrite Zlt_Qlt, inject_Z_pred in H. rewrite inject_Z_pred.
      change (inject_Z 0) with 0 in *. case_minmax; lra.
    + rewrite Zle_Qle, inject_Z_pred in H. change (inject_Z 0) with 0 in *. case_minmax; lra.
  - unfold fcNext, of_nat.
    destruct (Z.min_spec (Z.of_nat (List.length fcCards) - 1) (z + 1)) as [[H ->]|[H ->]].
    + rewrite Zlt_Qlt, inject_Z_pred, inject_Z_succ in H. rewrite inject_Z_pred.
      case_minmax; lra.
    + rewrite Zle_Qle, inject_Z_pred, inject_Z_succ in H. rewrite inject_Z_succ.
      case_minmax; lra.
  - intros Hz. split; [lia|]. split; [lia|]. rewrite Hcur. do 2 f_equal. lia.
Qed.

Lemma flashcard_navigation_witness :
  currentFc ["a"; "b"; "c"]%string (inject_Z 7) = Some "c"%string /\
  currentFc ["a"; "b"; "c"]%string (inject_Z (-1)) = Some "a"%string.
Proof.
  split.
  - destruct (flashcard_navigation ["a"; "b"; "c"]%string 7) as [H _]; [discriminate|].
    rewrite H. reflexivity.
  - destruct (flashcard_navigation ["a"; "b"; "c"]%string (-1)) as [H _]; [discriminate|].
    rewrite H. reflexivity.
Defined.
